(** * gocat: chunked HTTP range downloader (main.go)

    A shallow embedding of [checkHeaders], [downloadChunk],
    [downloadChunkWithRetry], [downloadAndWrite] and the download loop of
    [main], with the properties of the chunk plan, the retry policy, the
    probe and the write order.

    Conventions.
    - Go's [int64] (and [int], taken as 64 bits wide) is a [Z] kept in
      [-2^63, 2^63) by [Int64.wrap] after every arithmetic operation.
    - A Go [[]byte] is [option (list byte)]: [None] is the nil slice.
    - A Go [(value, error)] result is a pair whose second component is
      [option error]: [None] is the nil error.
    - The program talks to the outside through net/http, an [io.Writer],
      [os.Stderr] and [time.Sleep].  Every such call is appended to a trace,
      and the answer of the outside is a function of the trace so far, so
      the environment may answer the same request differently over time.
    - The time stamps of the diagnostic lines are left out.
    - [defer resp.Body.Close()] and the zero [http.Client] have no effect
      on what is computed and are left out; so are the parsing of the
      command line and [downloadList], whose result is the list of files
      given to the loop of [main]. *)

From Stdlib Require Import ZArith String Ascii List Lia Strings.Byte.
From Stdlib Require Import DecimalString DecimalPos DecimalZ.
From stdpp Require Import base gmap strings list.

Open Scope Z_scope.

(* ================================================================== *)
(** ** 64-bit signed integers *)

Module Int64.

Definition min_int : Z := - 2 ^ 63.
Definition max_int : Z := 2 ^ 63 - 1.

(** Two's complement wrap-around into [-2^63, 2^63). *)
Definition wrap (z : Z) : Z := (z + 2 ^ 63) mod 2 ^ 64 - 2 ^ 63.

Definition in_range (z : Z) : Prop := min_int <= z <= max_int.

Definition add (a b : Z) : Z := wrap (a + b).
Definition sub (a b : Z) : Z := wrap (a - b).
(** [a << n] *)
Definition shl (a n : Z) : Z := wrap (Z.shiftl a n).
(** [a / b] for [b <> 0]: truncated towards zero; [min_int / -1] wraps. *)
Definition quot (a b : Z) : Z := wrap (Z.quot a b).
(** [a % b] for [b <> 0]: the sign of the dividend. *)
Definition rem (a b : Z) : Z := Z.rem a b.

End Int64.

(* ================================================================== *)
(** ** Data *)

(** A Go byte slice; [None] is nil. *)
Abbreviation GoBytes := (option (list byte)).

Definition bytes_of (p : GoBytes) : list byte := default [] p.

(** The Go [error] values this program can hold. *)
Inductive error : Type :=
| ErrNet (msg : string)        (* an error returned by net/http or by a body read *)
| ErrAcceptRanges              (* errors.New("no supported Accept-Ranges found") *)
| ErrSyntax (num : string)     (* strconv.NumError with strconv.ErrSyntax *)
| ErrRange (num : string)      (* strconv.NumError with strconv.ErrRange *)
| ErrSink (msg : string).      (* an error returned by the io.Writer *)

(** [http.Header]: a map from canonical header names to their values. *)
Definition Header_Get (h : gmap string (list string)) (key : string) : string :=
  match h !! key with
  | Some (v :: _) => v
  | _ => ""%string
  end.

Definition Header_Add (h : gmap string (list string)) (key value : string)
  : gmap string (list string) :=
  <[ key := default [] (h !! key) ++ [value] ]> h.

Record Request : Type := mkRequest {
  Method : string;
  URL : string;
  ReqHeader : gmap string (list string)
}.

(** An [http.Response].  [Body] is what [io.ReadAll(resp.Body)] yields: the
    bytes read and the read error, if any. *)
Record Response : Type := mkResponse {
  StatusCode : Z;
  RespHeader : gmap string (list string);
  Body : list byte * option error
}.

(** The lines printed on [os.Stderr]. *)
Inductive LogLine : Type :=
| Downloading (chunk numChunks offset offsetTo : Z) (url : string)
| Retrying (i maxRetry : Z) (err : error)
| Completed.

(** The calls the program makes to the outside, in the order made. *)
Inductive Event : Type :=
| EvHead (url : string)                    (* http.Head(url) *)
| EvNewRequest (method url : string)       (* http.NewRequest(method, url, nil) *)
| EvDo (req : Request)                     (* client.Do(req) and the body read *)
| EvWrite (p : GoBytes)                    (* w.Write(p) *)
| EvStderr (line : LogLine)                (* fmt.Fprintf(os.Stderr, ...) *)
| EvSleep (seconds : Z)                    (* time.Sleep *)
| EvFatal (err : error).                   (* log.Fatal(err) *)

Abbreviation Trace := (list Event).

(** An [io.Writer]: the number of bytes written and the error. *)
Record Writer : Type := mkWriter {
  Write : Trace -> GoBytes -> Z * option error
}.

(** The outside world. *)
Class Env : Type := mkEnv {
  env_Head : Trace -> string -> Response + error;
  env_NewRequest : string -> string -> option error;
  env_Do : Trace -> Request -> Response + error;
  os_Stdout : Writer
}.

(** The package variables set from the command line. *)
Class Config : Type := mkConfig {
  MaxRetry : Z;
  BatchSizeInMB : Z
}.

(* ================================================================== *)
(** ** The monad of traced calls *)

Definition M (A : Type) : Type := Trace -> A * Trace.

Definition ret {A} (a : A) : M A := fun t => (a, t).

Definition bind {A B} (m : M A) (k : A -> M B) : M B :=
  fun t => let (a, t') := m t in k a t'.

Definition emit (e : Event) : M unit := fun t => (tt, t ++ [e]).

Declare Scope go_scope.
Delimit Scope go_scope with go.
Notation "'call' x <- m 'in' k" := (bind m (fun x => k))
  (at level 10, x name, m at level 100, k at level 200,
   format "'[v' 'call'  x  <-  m  'in' '/' k ']'") : go_scope.
Notation "'exec' m 'in' k" := (bind m (fun _ => k))
  (at level 10, m at level 100, k at level 200,
   format "'[v' 'exec'  m  'in' '/' k ']'") : go_scope.
Open Scope go_scope.

(* ================================================================== *)
(** ** Library functions *)

(** [fmt]'s [%v] of an integer: its decimal numeral. *)
Definition fmt_int (z : Z) : string := NilZero.string_of_int (Z.to_int z).

Module strconv.

Definition digit (c : ascii) : option Z :=
  let n := Z.of_nat (nat_of_ascii c) in
  if (48 <=? n) && (n <=? 57) then Some (n - 48) else None.

Definition maxUint64 : Z := 2 ^ 64 - 1.
(** [maxUint64/10 + 1]: the least [n] with [n * 10] above [maxUint64]. *)
Definition cutoff : Z := maxUint64 / 10 + 1.

Inductive uerr : Type := USyntax | URange.

(** The digit loop of [ParseUint(s, 10, 64)].  A byte that is not a
    decimal digit is a syntax error (a letter is a digit of a larger
    base, an underscore is accepted in base 0 only); an overflow is a
    range error, reported at the digit where it happens. *)
Fixpoint uint_loop (s : string) (n : Z) : Z + uerr :=
  match s with
  | EmptyString => inl n
  | String c s' =>
      match digit c with
      | None => inr USyntax
      | Some d =>
          if n >=? cutoff then inr URange
          else
            let n := n * 10 in
            let n1 := (n + d) mod 2 ^ 64 in
            if (n1 <? n) || (n1 >? maxUint64) then inr URange
            else uint_loop s' n1
      end
  end.

Definition ParseUint (s : string) : Z + uerr :=
  match s with
  | EmptyString => inr USyntax
  | _ => uint_loop s 0
  end.

(** [strconv.ParseInt(s, 10, 64)]. *)
Definition ParseInt (s0 : string) : Z * option error :=
  match s0 with
  | EmptyString => (0, Some (ErrSyntax s0))
  | String c rest =>
      let neg := Ascii.eqb c "-" in
      let s := if Ascii.eqb c "+" || neg then rest else s0 in
      match ParseUint s with
      | inr USyntax => (0, Some (ErrSyntax s0))
      | inr URange =>
          if neg then (- 2 ^ 63, Some (ErrRange s0))
          else (2 ^ 63 - 1, Some (ErrRange s0))
      | inl un =>
          if negb neg && (un >=? 2 ^ 63) then (2 ^ 63 - 1, Some (ErrRange s0))
          else if neg && (un >? 2 ^ 63) then (- 2 ^ 63, Some (ErrRange s0))
          else (if neg then Int64.wrap (- Int64.wrap un) else Int64.wrap un, None)
      end
  end.

End strconv.

(** The bytes [[a, b)] of a body. *)
Definition slice (body : list byte) (a b : Z) : list byte :=
  take (Z.to_nat (b - a)) (drop (Z.to_nat a) body).

(** [bs] is exactly the bytes [first .. last] (both included, as in a
    Range header) of [body]. *)
Definition range_bytes (body : list byte) (first last : Z) (p : GoBytes) : Prop :=
  0 <= first /\ first <= last /\ last < Z.of_nat (length body) /\
  p = Some (slice body first (last + 1)).

Section Program.

Context {E : Env} {C : Config}.

(** [http.Head(url)] *)
Definition http_Head (url : string) : M (Response + error) :=
  fun t => (env_Head t url, t ++ [EvHead url]).

(** [http.NewRequest(method, url, nil)] *)
Definition http_NewRequest (method url : string) : M (Request + error) :=
  fun t =>
    (match env_NewRequest method url with
     | Some err => inr err
     | None => inl (mkRequest method url ∅)
     end, t ++ [EvNewRequest method url]).

(** [client.Do(req)] *)
Definition client_Do (req : Request) : M (Response + error) :=
  fun t => (env_Do t req, t ++ [EvDo req]).

(** [w.Write(p)] *)
Definition w_Write (w : Writer) (p : GoBytes) : M (Z * option error) :=
  fun t => (Write w t p, t ++ [EvWrite p]).

(* ================================================================ *)
(** ** The program *)

Definition checkHeaders (url : string) : M (Z * option error) :=
  call r <- http_Head url in
  match r with
  | inr err => ret (0, Some err)
  | inl resp =>
      let acceptRanges := Header_Get (RespHeader resp) "Accept-Ranges" in
      if negb (String.eqb acceptRanges "bytes") then
        ret (0, Some ErrAcceptRanges)
      else
        let contentLenStr := Header_Get (RespHeader resp) "Content-Length" in
        match strconv.ParseInt contentLenStr with
        | (_, Some err) => ret (0, Some err)
        | (contentLen, None) => ret (contentLen, None)
        end
  end.

(** [fmt.Sprintf("bytes=%v-%v", offsetFrom, offsetTo)] *)
Definition rangeStr (offsetFrom offsetTo : Z) : string :=
  "bytes=" +:+ fmt_int offsetFrom +:+ "-" +:+ fmt_int offsetTo.

Definition downloadChunk (url : string) (offsetFrom offsetTo : Z)
  : M (GoBytes * option error) :=
  call r <- http_NewRequest "GET" url in
  match r with
  | inr err => ret (None, Some err)
  | inl req =>
      let req := mkRequest (Method req) (URL req)
                   (Header_Add (ReqHeader req) "Range" (rangeStr offsetFrom offsetTo)) in
      call r <- client_Do req in
      match r with
      | inr err => ret (None, Some err)
      | inl resp =>
          match Body resp with
          | (_, Some err) => ret (None, Some err)
          | (respBytes, None) => ret (Some respBytes, None)
          end
      end
  end.

(** The loop [for i := 0; i < MaxRetry; i++] of [downloadChunkWithRetry];
    [n] is the number of iterations left, [MaxRetry - i], and [cur] the
    current value of the named results [(resp, err)]. *)
Fixpoint retryLoop (n : nat) (i : Z) (url : string) (offsetFrom offsetTo : Z)
    (cur : GoBytes * option error) : M (GoBytes * option error) :=
  match n with
  | O => ret cur
  | S n' =>
      call r <- downloadChunk url offsetFrom offsetTo in
      match snd r with
      | None => ret r
      | Some err =>
          exec emit (EvStderr (Retrying i MaxRetry err)) in
          exec emit (EvSleep 1) in
          retryLoop n' (i + 1) url offsetFrom offsetTo r
      end
  end.

Definition downloadChunkWithRetry (url : string) (offsetFrom offsetTo : Z)
  : M (GoBytes * option error) :=
  retryLoop (Z.to_nat MaxRetry) 0 url offsetFrom offsetTo (None, None).

(** How a call ends: it returns its [error] result, or it panics. *)
Inductive Outcome : Type :=
| Returned (err : option error)
| Panicked (msg : string).

(** The end of the chunk [[offset, offsetTo)] that starts at [offset]. *)
Definition chunkEnd (contentLen batchSize offset : Z) : Z :=
  let offsetTo := Int64.add offset batchSize in
  if offsetTo >? contentLen then contentLen else offsetTo.

(** The loop [for offset := int64(0); offset < contentLen; ] of
    [downloadAndWrite].  [None] is returned when [fuel] iterations were
    not enough to leave the loop. *)
Fixpoint downloadLoop (fuel : nat) (url : string) (w : Writer)
    (contentLen batchSize numChunks chunk offset : Z) : M (option Outcome) :=
  if offset <? contentLen then
    match fuel with
    | O => ret None
    | S fuel' =>
        let offsetTo := chunkEnd contentLen batchSize offset in
        exec emit (EvStderr (Downloading chunk numChunks offset offsetTo url)) in
        call r <- downloadChunkWithRetry url offset (Int64.sub offsetTo 1) in
        match snd r with
        | Some err => ret (Some (Returned (Some err)))
        | None =>
            call wr <- w_Write w (fst r) in
            match snd wr with
            | Some err => ret (Some (Returned (Some err)))
            | None =>
                downloadLoop fuel' url w contentLen batchSize numChunks
                  (Int64.add chunk 1) offsetTo
            end
        end
    end
  else ret (Some (Returned None)).

(** [numChunks] as computed before the loop, for [batchSize <> 0]. *)
Definition numChunksOf (contentLen batchSize : Z) : Z :=
  let numChunks := Int64.quot contentLen batchSize in
  if Int64.rem contentLen batchSize >? 0 then Int64.add numChunks 1
  else numChunks.

Definition downloadAndWrite (fuel : nat) (url : string) (w : Writer)
  : M (option Outcome) :=
  call r <- checkHeaders url in
  match snd r with
  | Some err => ret (Some (Returned (Some err)))
  | None =>
      let contentLen := fst r in
      let batchSize := Int64.shl BatchSizeInMB 20 in
      if batchSize =? 0 then
        ret (Some (Panicked "runtime error: integer divide by zero"))
      else
        let numChunks := numChunksOf contentLen batchSize in
        downloadLoop fuel url w contentLen batchSize numChunks 1 0
  end.

(** How the process ends. *)
Inductive Exit : Type :=
| ExitCompleted
| ExitFatal (err : error)
| ExitPanic (msg : string).

(** The loop [for _, file := range files] of [main] and the final
    message. *)
Fixpoint downloadFiles (fuel : nat) (files : list string) : M (option Exit) :=
  match files with
  | [] => exec emit (EvStderr Completed) in ret (Some ExitCompleted)
  | file :: files' =>
      call r <- downloadAndWrite fuel file os_Stdout in
      match r with
      | None => ret None
      | Some (Panicked msg) => ret (Some (ExitPanic msg))
      | Some (Returned (Some err)) =>
          exec emit (EvFatal err) in ret (Some (ExitFatal err))
      | Some (Returned None) => downloadFiles fuel files'
      end
  end.

(** The request [downloadChunk] sends for the bytes [offsetFrom ..
    offsetTo]. *)
Definition rangeRequest (url : string) (offsetFrom offsetTo : Z) : Request :=
  mkRequest "GET" url (Header_Add ∅ "Range" (rangeStr offsetFrom offsetTo)).

(** The calls of one [downloadChunk]. *)
Definition attemptEvents (url : string) (offsetFrom offsetTo : Z) : Trace :=
  EvNewRequest "GET" url ::
  match env_NewRequest "GET" url with
  | Some _ => []
  | None => [EvDo (rangeRequest url offsetFrom offsetTo)]
  end.

(** A call of [downloadChunk] after the calls [t] fails, or succeeds. *)
Definition fetch_fails (url : string) (offsetFrom offsetTo : Z) (t : Trace) : Prop :=
  snd (fst (downloadChunk url offsetFrom offsetTo t)) <> None.

Definition fetch_ok (url : string) (offsetFrom offsetTo : Z) (t : Trace) : Prop :=
  snd (fst (downloadChunk url offsetFrom offsetTo t)) = None.

(** The resource at [url] has the body [body]: a probe that succeeds
    reports its size, and a chunk fetch that starts inside the body and
    returns without error returns exactly the bytes of the requested range
    of [body]. *)
Definition served (url : string) (body : list byte) : Prop :=
  (forall (t : Trace) (n : Z),
      fst (checkHeaders url t) = (n, None) -> n = Z.of_nat (length body)) /\
  (forall (t : Trace) (first last : Z) (p : GoBytes),
      0 <= first < Z.of_nat (length body) ->
      fst (downloadChunkWithRetry url first last t) = (p, None) ->
      range_bytes body first last p).

(** The chunk plan: the ranges [[offset, offsetTo)] the loop of
    [downloadAndWrite] goes through when no chunk fails. *)
Fixpoint chunkPlan (fuel : nat) (contentLen batchSize offset : Z)
  : option (list (Z * Z)) :=
  if offset <? contentLen then
    match fuel with
    | O => None
    | S fuel' =>
        let offsetTo := chunkEnd contentLen batchSize offset in
        option_map (cons (offset, offsetTo))
          (chunkPlan fuel' contentLen batchSize offsetTo)
    end
  else Some [].

End Program.

(* ================================================================== *)
(** ** Reading a trace *)

(** The payloads handed to [w.Write], in order. *)
Definition writes_of (t : Trace) : list GoBytes :=
  omap (fun e => match e with EvWrite p => Some p | _ => None end) t.

(** The bytes the sink received. *)
Definition sink_of (t : Trace) : list byte :=
  concat (map bytes_of (writes_of t)).

(** The requests sent with [client.Do], in order. *)
Definition requests_of (t : Trace) : list Request :=
  omap (fun e => match e with EvDo r => Some r | _ => None end) t.

(** The number of calls of [downloadChunk]: each starts with one
    [http.NewRequest("GET", ...)]. *)
Definition attempts_of (t : Trace) : nat :=
  length (omap (fun e => match e with
                         | EvNewRequest m u => Some (m, u)
                         | _ => None
                         end) t).

(** The ranges announced on [os.Stderr], in order. *)
Definition ranges_of (t : Trace) : list (Z * Z) :=
  omap (fun e => match e with
                 | EvStderr (Downloading _ _ a b _) => Some (a, b)
                 | _ => None
                 end) t.

(** The requests sent with [client.Do], each with the range announced last
    before it (the chunk it is sent for). *)
Fixpoint chunk_requests (cur : option (Z * Z)) (t : Trace)
  : list (option (Z * Z) * Request) :=
  match t with
  | [] => []
  | EvStderr (Downloading _ _ a b _) :: t' => chunk_requests (Some (a, b)) t'
  | EvDo req :: t' => (cur, req) :: chunk_requests cur t'
  | _ :: t' => chunk_requests cur t'
  end.

(* ================================================================== *)
(** ** Vocabulary of the specification *)

(** [ceil (n / b)] for [b > 0]. *)
Definition ceil_div (n b : Z) : Z := (n + b - 1) / b.

(** The half-open ranges [rs] are contiguous, non-empty, ascending and
    cover exactly [[lo, hi)]. *)
Fixpoint tiles (lo hi : Z) (rs : list (Z * Z)) : Prop :=
  match rs with
  | [] => lo = hi
  | (a, b) :: rs' => a = lo /\ a < b /\ b <= hi /\ tiles b hi rs'
  end.

(** Every range is at most [size] long, and every range but the last is
    exactly [size] long. *)
Fixpoint sized (size : Z) (rs : list (Z * Z)) : Prop :=
  match rs with
  | [] => True
  | (a, b) :: rs' =>
      b - a <= size /\ (rs' <> [] -> b - a = size) /\ sized size rs'
  end.

(** The plan in closed form: [m] ranges of size [batchSize] from the
    [k]-th on, the last one cut at [contentLen]. *)
Fixpoint planFrom (contentLen batchSize : Z) (m : nat) (k : Z) : list (Z * Z) :=
  match m with
  | O => []
  | S m' =>
      (k * batchSize, Z.min ((k + 1) * batchSize) contentLen)
        :: planFrom contentLen batchSize m' (k + 1)
  end.

Definition planOf (contentLen batchSize : Z) : list (Z * Z) :=
  planFrom contentLen batchSize (Z.to_nat (ceil_div contentLen batchSize)) 0.

(** The value of a string of decimal digits read after the digits [n];
    [None] when a byte is not a digit. *)
Fixpoint digits_acc (s : string) (n : Z) : option Z :=
  match s with
  | EmptyString => Some n
  | String c s' =>
      match strconv.digit c with
      | None => None
      | Some d => digits_acc s' (n * 10 + d)
      end
  end.

Definition digits_value (s : string) : option Z :=
  match s with
  | EmptyString => None
  | _ => digits_acc s 0
  end.

(** The integer a decimal literal denotes: an optional sign and one or
    more digits. *)
Definition literal_value (s : string) : option Z :=
  match s with
  | EmptyString => None
  | String c rest =>
      if Ascii.eqb c "+" then digits_value rest
      else if Ascii.eqb c "-" then option_map Z.opp (digits_value rest)
      else digits_value s
  end.

(** [s] is a decimal literal of an integer that fits in an [int64]. *)
Definition denotes_int64 (s : string) : Prop :=
  exists z : Z, literal_value s = Some z /\ Int64.in_range z.

(** An event of a chunk fetch for the bytes [first .. last] of [url]. *)
Definition fetch_event (req : Request) (url : string) (e : Event) : Prop :=
  match e with
  | EvNewRequest m u => m = "GET"%string /\ u = url
  | EvDo r => r = req
  | EvStderr (Retrying _ _ _) => True
  | EvSleep _ => True
  | _ => False
  end.


(** The payloads of the chunks [rs] of a body. *)
Definition chunk_writes (body : list byte) (rs : list (Z * Z)) : list GoBytes :=
  map (fun r => Some (slice body (fst r) (snd r))) rs.

(** The calls [seg] made for one resource download it in order: the chunks
    announced tile the body, the writes are the chunks' bytes, one write
    per chunk in the order announced, and the sink receives the body. *)
Definition in_order (body : list byte) (seg : Trace) : Prop :=
  tiles 0 (Z.of_nat (length body)) (ranges_of seg) /\
  writes_of seg = chunk_writes body (ranges_of seg) /\
  sink_of seg = body.

(* ================================================================== *)
(** ** Concrete environments *)

(** A writer that accepts everything, like a pipe that is read. *)
Definition okWriter : Writer :=
  mkWriter (fun _ p => (Z.of_nat (length (bytes_of p)), None)).

(** A writer whose every write fails. *)
Definition brokenWriter : Writer :=
  mkWriter (fun _ _ => (0, Some (ErrSink "broken pipe"))).

Module Server.

Definition parse_int (s : string) : option Z :=
  option_map Z.of_int (NilZero.int_of_string s).

(** Cut [s] at its first dash. *)
Fixpoint split_dash (s : string) : option (string * string) :=
  match s with
  | EmptyString => None
  | String c s' =>
      if Ascii.eqb c "-" then Some (EmptyString, s')
      else match split_dash s' with
           | Some (x, y) => Some (String c x, y)
           | None => None
           end
  end.

(** Read [bytes=<first>-<last>]; the first number may carry a sign. *)
Definition parseRange (s : string) : option (Z * Z) :=
  match s with
  | String "b" (String "y" (String "t" (String "e" (String "s"
      (String "=" (String c rest)))))) =>
      match split_dash rest with
      | Some (x, y) =>
          match parse_int (String c x), parse_int y with
          | Some a, Some b => Some (a, b)
          | _, _ => None
          end
      | None => None
      end
  | _ => None
  end.

Fixpoint find_file (url : string) (files : list (string * list byte))
  : option (list byte) :=
  match files with
  | [] => None
  | (u, body) :: files' =>
      if String.eqb u url then Some body else find_file url files'
  end.

Definition head_response (body : list byte) : Response :=
  mkResponse 200
    (<[ "Accept-Ranges"%string := ["bytes"%string] ]>
       {[ "Content-Length"%string := [fmt_int (Z.of_nat (length body))] ]})
    ([], None).

(** The answer to a GET: the bytes asked for when the Range header names
    bytes of the file, and a broken connection otherwise. *)
Definition get_response (files : list (string * list byte)) (req : Request)
  : Response + error :=
  match find_file (URL req) files,
        parseRange (Header_Get (ReqHeader req) "Range") with
  | Some body, Some (a, b) =>
      if (0 <=? a) && (a <=? b) && (b <? Z.of_nat (length body)) then
        inl (mkResponse 206 ∅ (slice body a (b + 1), None))
      else inr (ErrNet "connection reset by peer")
  | _, _ => inr (ErrNet "connection reset by peer")
  end.

(** A server of static files that always answers. *)
Definition static (files : list (string * list byte)) : Env :=
  mkEnv
    (fun _ url =>
       match find_file url files with
       | Some body => inl (head_response body)
       | None => inr (ErrNet "no such host")
       end)
    (fun _ _ => None)
    (fun _ req => get_response files req)
    okWriter.

(** The same server behind a connection that breaks on each of the first
    [k] calls of [downloadChunk]. *)
Definition flaky (k : nat) (files : list (string * list byte)) : Env :=
  mkEnv
    (@env_Head (static files))
    (fun _ _ => None)
    (fun t req =>
       if (attempts_of t <=? k)%nat then inr (ErrNet "connection refused")
       else get_response files req)
    okWriter.

(** A host that refuses every connection. *)
Definition down : Env :=
  mkEnv
    (fun _ _ => inr (ErrNet "connection refused"))
    (fun _ _ => None)
    (fun _ _ => inr (ErrNet "connection refused"))
    okWriter.

(** A server that answers every request with one and the same response. *)
Definition constant (resp : Response) : Env :=
  mkEnv (fun _ _ => inl resp) (fun _ _ => None) (fun _ _ => inl resp) okWriter.

End Server.

(** The inputs of the examples. *)
Module Sample.

Definition f1 : string := "http://a/f1".
Definition f2 : string := "http://a/f2".
Definition body1 : list byte := list_byte_of_string "hello, world".
Definition body2 : list byte := list_byte_of_string "second file".
Definition files : list (string * list byte) := [(f1, body1); (f2, body2)].

(** [gocat -m 3 -b 1] *)
Definition cfg : Config := mkConfig 3 1.
(** [gocat -m 0 -b 1] *)
Definition cfg_no_retry : Config := mkConfig 0 1.

Definition headers (acceptRanges contentLength : string)
  : gmap string (list string) :=
  <[ "Accept-Ranges"%string := [acceptRanges] ]>
    {[ "Content-Length"%string := [contentLength] ]}.

(** A "404 Not Found" answer. *)
Definition not_found : Response :=
  mkResponse 404 (headers "bytes" "9") (list_byte_of_string "Not Found", None).

(** An answer that announces a negative size. *)
Definition negative_size : Response :=
  mkResponse 200 (headers "bytes" "-5") ([], None).

(** An answer that does not announce byte ranges. *)
Definition no_ranges : Response :=
  mkResponse 200 (headers "none" "12") ([], None).

(** An answer whose size is not a number. *)
Definition bad_size : Response :=
  mkResponse 200 (headers "bytes" "12 bytes") ([], None).

(** [gocat -m 3 -b 4398046511104]: batches of [2^62] bytes. *)
Definition cfg_huge_batch : Config := mkConfig 3 4398046511104.

(** An answer that announces [2^63 - 1] bytes. *)
Definition huge_size : Response :=
  mkResponse 200 (headers "bytes" "9223372036854775807") ([], None).

(** An answer whose body breaks after five bytes. *)
Definition truncated : Response :=
  mkResponse 206 ∅ (list_byte_of_string "hello", Some (ErrNet "unexpected EOF")).

End Sample.

(* ================================================================== *)
(** ** The manifest and the command line *)

(** What the [bufio.Scanner] over the body of the manifest shows to the
    loop of [downloadList]: for each [scanner.Scan()] that returns true,
    [scanner.Text()] and the value [scanner.Err()] has at that moment (a
    read error is set while the lines already buffered are still handed
    out).  [Scan()] returns false after the last entry. *)
Abbreviation Scanned := (list (string * option error)).

(** [http.Get(url)] and the scan of the response body. *)
Class Manifest : Type := mkManifest {
  env_Get : string -> Scanned + error
}.

(** The loop [for scanner.Scan()] of [downloadList]; [lst] is the value
    of the variable [list].  A nil [[]string] is [None]. *)
Fixpoint scanLoop (steps : Scanned) (lst : list string)
  : option (list string) * option error :=
  match steps with
  | [] => (Some lst, None)
  | (line, err) :: steps' =>
      if negb (String.prefix "http" line) then scanLoop steps' lst
      else
        let lst := lst ++ [line] in
        match err with
        | Some e => (None, Some e)
        | None => scanLoop steps' lst
        end
  end.

Definition downloadList {Mf : Manifest} (url : string)
  : option (list string) * option error :=
  match env_Get url with
  | inr err => (None, Some err)
  | inl steps => scanLoop steps []
  end.

(** The line [printUsage] prints. *)
Definition usage : string :=
  "Usage: gocat -m <max retry> -b <batch size in MB> <url>".

(** How [flag.Parse()] ends: the values of the flags and the arguments
    left, or the end of the process (a flag that is not defined, a value
    that is not a number, [-h]). *)
Inductive FlagResult : Type :=
| Parsed (cfg : Config) (args : list string)
| FlagExit (code : Z).

(** [flag.Parse()] of the arguments [os.Args[1:]] for the flags [-m] and
    [-b], given their default values. *)
Class CommandLine : Type := mkCommandLine {
  flag_Parse : Config -> list string -> FlagResult
}.

(** [flag.Arg(i)]: the [i]-th argument left, or the empty string when
    there is none. *)
Definition flag_Arg (args : list string) (i : Z) : string :=
  if (i <? 0) || (Z.of_nat (length args) <=? i) then ""%string
  else nth (Z.to_nat i) args ""%string.

(** How a run of [main] ends. *)
Inductive ProcessEnd : Type :=
| UsageExit (line : string)                   (* printUsage(); os.Exit(1) *)
| FlagsExit (code : Z)                        (* flag.Parse() ends the process *)
| ListFatal (url : string) (err : error)      (* log.Fatal(err) after downloadList *)
| Downloads (url : string) (cfg : Config) (files : list string)
    (r : option Exit) (t : Trace).            (* the loop over the files *)

Definition main {E : Env} {Mf : Manifest} {CL : CommandLine}
    (fuel : nat) (os_Args : list string) : ProcessEnd :=
  if (length os_Args <? 2)%nat then UsageExit usage
  else
    match flag_Parse (mkConfig 100 16) (tail os_Args) with
    | FlagExit code => FlagsExit code
    | Parsed cfg args =>
        let url := flag_Arg args (Z.of_nat (length args) - 1) in
        match downloadList url with
        | (_, Some err) => ListFatal url err
        | (files, None) =>
            let files := default [] files in
            let (r, t) := @downloadFiles E cfg fuel files [] in
            Downloads url cfg files r t
        end
    end.

(** The resources probed with [http.Head], in order. *)
Definition heads_of (t : Trace) : list string :=
  omap (fun e => match e with EvHead u => Some u | _ => None end) t.

(** The attempt indices of the "retrying" lines, in order. *)
Definition retry_indices (t : Trace) : list Z :=
  omap (fun e => match e with
                 | EvStderr (Retrying i _ _) => Some i
                 | _ => None
                 end) t.

(** The pauses, in seconds, in order. *)
Definition sleeps_of (t : Trace) : list Z :=
  omap (fun e => match e with EvSleep d => Some d | _ => None end) t.

(** The chunk index and the chunk count of the "downloading" lines. *)
Definition progress_of (t : Trace) : list (Z * Z) :=
  omap (fun e => match e with
                 | EvStderr (Downloading k n _ _ _) => Some (k, n)
                 | _ => None
                 end) t.

(** [k] consecutive integers from [i] on. *)
Fixpoint upFrom (i : Z) (k : nat) : list Z :=
  match k with
  | O => []
  | S k' => i :: upFrom (i + 1) k'
  end.

(** An event of the loop of [downloadAndWrite] for [url]: a "downloading"
    line, an event of a chunk fetch, or a write. *)
Definition loop_event (url : string) (e : Event) : Prop :=
  match e with
  | EvNewRequest m u => m = "GET"%string /\ u = url
  | EvDo r => Method r = "GET"%string /\ URL r = url
  | EvWrite _ => True
  | EvStderr (Downloading _ _ _ _ u) => u = url
  | EvStderr (Retrying _ _ _) => True
  | EvSleep d => d = 1
  | _ => False
  end.

(** The addresses contacted: those probed with [http.Head] and those of
    the requests sent with [client.Do], in order. *)
Definition contacts_of (t : Trace) : list string :=
  omap (fun e => match e with
                 | EvHead u => Some u
                 | EvDo r => Some (URL r)
                 | _ => None
                 end) t.

(** The lines of a manifest that are taken as resources. *)
Definition http_lines (steps : Scanned) : list string :=
  List.filter (String.prefix "http") (map fst steps).

(** No error is visible at a line that begins with [http]. *)
Definition clean_scan (steps : Scanned) : Prop :=
  Forall (fun s => String.prefix "http" (fst s) = true -> snd s = None) steps.

Module ManifestSample.

(** A manifest of a comment, two resources, an empty line and a note. *)
Definition scanned : Scanned :=
  [("# the files"%string, None); ("http://a/f1"%string, None);
   (""%string, None); ("http://a/f2"%string, None);
   ("see ftp://a/f3"%string, None)].

(** The same lines, with a read error that shows from the second line on. *)
Definition scanned_broken : Scanned :=
  [("# the files"%string, None); ("http://a/f1"%string, None);
   (""%string, Some (ErrNet "unexpected EOF"));
   ("http://a/f2"%string, Some (ErrNet "unexpected EOF"))].

(** A manifest that breaks in the middle of its second resource: the last
    token is what was read of the line, and the read error shows with it. *)
Definition scanned_cut : Scanned :=
  [("http://a/f1"%string, None);
   ("htt"%string, Some (ErrNet "unexpected EOF"))].

Definition manifest : Manifest :=
  mkManifest (fun url =>
    if String.eqb url "http://a/list" then inl scanned
    else if String.eqb url "http://a/broken" then inl scanned_broken
    else if String.eqb url "http://a/cut" then inl scanned_cut
    else inr (ErrNet "no such host")).

(** A command line of positional arguments only: the flags keep their
    default values. *)
Definition no_flags : CommandLine :=
  mkCommandLine (fun defaults args => Parsed defaults args).

(** A server of static files whose output pipe is closed. *)
Definition closed_pipe (files : list (string * list byte)) : Env :=
  mkEnv (@env_Head (Server.static files)) (fun _ _ => None)
    (@env_Do (Server.static files)) brokenWriter.

End ManifestSample.

(* ================================================================== *)
(** ** Arithmetic of [int64] *)

Module Int64Facts.

Lemma wrap_in_range (z : Z) : Int64.in_range (Int64.wrap z).
Proof.
  unfold Int64.in_range, Int64.wrap, Int64.min_int, Int64.max_int.
  pose proof (Z.mod_pos_bound (z + 2 ^ 63) (2 ^ 64) ltac:(lia)). lia.
Qed.

Lemma wrap_id (z : Z) : Int64.in_range z -> Int64.wrap z = z.
Proof.
  unfold Int64.in_range, Int64.wrap, Int64.min_int, Int64.max_int.
  intros H. rewrite Z.mod_small; lia.
Qed.

Lemma wrap_above (z : Z) :
  Int64.max_int < z <= Int64.max_int + 2 ^ 64 -> Int64.wrap z = z - 2 ^ 64.
Proof.
  unfold Int64.wrap, Int64.max_int. intros H.
  replace (z + 2 ^ 63) with ((z - 2 ^ 64 + 2 ^ 63) + 1 * 2 ^ 64) by lia.
  rewrite Z.mod_add by lia. rewrite Z.mod_small; lia.
Qed.

End Int64Facts.

(* ================================================================== *)
(** ** The chunk plan *)

Section ChunkPlan.

Variables contentLen batchSize : Z.
Hypothesis batch_pos : 0 < batchSize.
Hypothesis len_nonneg : 0 <= contentLen.

Local Abbreviation count := (ceil_div contentLen batchSize).

Lemma ceil_div_bounds :
  0 <= count /\ contentLen <= count * batchSize /\
  count * batchSize < contentLen + batchSize.
Proof.
  unfold ceil_div.
  pose proof (Z.div_mod (contentLen + batchSize - 1) batchSize ltac:(lia)) as D.
  pose proof (Z.mod_pos_bound (contentLen + batchSize - 1) batchSize batch_pos) as R.
  set (q := (contentLen + batchSize - 1) / batchSize) in *.
  assert (0 <= q) by (apply Z.div_pos; lia).
  nia.
Qed.

Lemma ceil_div_zero : count = 0 <-> contentLen = 0.
Proof.
  pose proof ceil_div_bounds as (H0 & H1 & H2). split; intros; nia.
Qed.

(** Without overflow the end of a chunk is the smaller of [offset +
    batchSize] and [contentLen]. *)
Lemma chunkEnd_min (offset : Z) :
  0 <= offset -> offset + batchSize <= Int64.max_int ->
  chunkEnd contentLen batchSize offset = Z.min (offset + batchSize) contentLen.
Proof.
  intros Ho Hb. unfold chunkEnd, Int64.add.
  rewrite Int64Facts.wrap_id
    by (unfold Int64.in_range, Int64.min_int, Int64.max_int in *; lia).
  destruct (Z.gtb_spec (offset + batchSize) contentLen); lia.
Qed.

Hypothesis no_overflow : count * batchSize <= Int64.max_int.

Lemma chunkPlan_planFrom (m : nat) :
  forall (fuel : nat) (k : Z),
    0 <= k -> k + Z.of_nat (S m) = count -> (S m <= fuel)%nat ->
    chunkPlan fuel contentLen batchSize (k * batchSize)
    = Some (planFrom contentLen batchSize (S m) k).
Proof.
  pose proof ceil_div_bounds as (H0 & H1 & H2).
  induction m as [|m IH]; intros fuel k Hk Hc Hf;
    (destruct fuel as [|fuel]; [lia|]); cbn [chunkPlan planFrom].
  - destruct (Z.ltb_spec (k * batchSize) contentLen); [|nia].
    rewrite chunkEnd_min by nia.
    replace (Z.min (k * batchSize + batchSize) contentLen) with contentLen by nia.
    replace (Z.min ((k + 1) * batchSize) contentLen) with contentLen by nia.
    destruct fuel; cbn [chunkPlan]; now rewrite Z.ltb_irrefl.
  - destruct (Z.ltb_spec (k * batchSize) contentLen); [|nia].
    rewrite chunkEnd_min by nia.
    replace (Z.min (k * batchSize + batchSize) contentLen)
      with ((k + 1) * batchSize) by nia.
    replace (Z.min ((k + 1) * batchSize) contentLen)
      with ((k + 1) * batchSize) by nia.
    rewrite (IH fuel (k + 1)) by lia. reflexivity.
Qed.

Lemma chunkPlan_planOf (fuel : nat) :
  (Z.to_nat count <= fuel)%nat ->
  chunkPlan fuel contentLen batchSize 0 = Some (planOf contentLen batchSize).
Proof.
  intros Hf. pose proof ceil_div_bounds as (H0 & _).
  unfold planOf.
  destruct (Z.to_nat count) as [|m] eqn:Em.
  - assert (contentLen = 0) by (apply ceil_div_zero; lia). subst.
    destruct fuel; reflexivity.
  - change 0 with (0 * batchSize) at 1.
    apply chunkPlan_planFrom; lia.
Qed.

Lemma planFrom_length (m : nat) (k : Z) :
  length (planFrom contentLen batchSize m k) = m.
Proof. revert k. induction m; intros; simpl; auto. Qed.

Lemma planFrom_tiles (m : nat) :
  forall k : Z,
    0 <= k -> k + Z.of_nat (S m) = count ->
    tiles (k * batchSize) contentLen (planFrom contentLen batchSize (S m) k).
Proof.
  pose proof ceil_div_bounds as (H0 & H1 & H2).
  induction m as [|m IH]; intros k Hk Hc; cbn [planFrom tiles].
  - repeat split; try nia.
  - repeat split; try nia.
    replace (Z.min ((k + 1) * batchSize) contentLen)
      with ((k + 1) * batchSize) by nia.
    apply IH; lia.
Qed.

Lemma planFrom_sized (m : nat) :
  forall k : Z,
    0 <= k -> k + Z.of_nat m = count ->
    sized batchSize (planFrom contentLen batchSize m k).
Proof.
  pose proof ceil_div_bounds as (H0 & H1 & H2).
  induction m as [|m IH]; intros k Hk Hc; cbn [planFrom sized]; [exact I|].
  split; [nia|]. split; [|apply IH; lia].
  destruct m; [easy|]. intros _. nia.
Qed.

(** [numChunks], as the code computes it, is [ceil_div]. *)
Lemma numChunksOf_ceil : numChunksOf contentLen batchSize = count.
Proof.
  pose proof ceil_div_bounds as (H0 & H1 & H2).
  unfold numChunksOf, Int64.quot, Int64.rem, Int64.add.
  rewrite Z.quot_div_nonneg, Z.rem_mod_nonneg by lia.
  pose proof (Z.div_mod contentLen batchSize ltac:(lia)) as D.
  pose proof (Z.mod_pos_bound contentLen batchSize batch_pos) as R.
  assert (0 <= contentLen / batchSize) by (apply Z.div_pos; lia).
  assert (Hq : count = contentLen / batchSize
                       + Z.b2z (contentLen mod batchSize >? 0)).
  { unfold ceil_div.
    destruct (Z.gtb_spec (contentLen mod batchSize) 0); simpl.
    - symmetry. apply Z.div_unique with (r := contentLen mod batchSize - 1); lia.
    - symmetry. apply Z.div_unique with (r := batchSize - 1); lia. }
  unfold Int64.max_int in *.
  rewrite (Int64Facts.wrap_id (contentLen / batchSize))
    by (unfold Int64.in_range, Int64.min_int, Int64.max_int;
        destruct (contentLen mod batchSize >? 0); simpl in Hq; nia).
  destruct (Z.gtb_spec (contentLen mod batchSize) 0); simpl in Hq; [|lia].
  rewrite Int64Facts.wrap_id; [lia|].
  unfold Int64.in_range, Int64.min_int, Int64.max_int; nia.
Qed.

End ChunkPlan.

(** C1 (as amended).  For every [contentLen >= 0] and [batchSize > 0] such
    that the rounded-up size [ceil (contentLen / batchSize) * batchSize]
    fits in an [int64], the loop of [downloadAndWrite] goes through a plan
    of half-open ranges that are contiguous, non-overlapping and cover
    exactly [[0, contentLen)], each at most [batchSize] long and only the
    last one possibly shorter; their number is [ceil (contentLen /
    batchSize)], which is also the [numChunks] the code prints, and it is 0
    exactly when [contentLen = 0]. *)
Theorem chunk_plan_correct (contentLen batchSize : Z) :
  0 <= contentLen -> 0 < batchSize ->
  ceil_div contentLen batchSize * batchSize <= Int64.max_int ->
  exists plan : list (Z * Z),
    (forall fuel : nat,
        (Z.to_nat (ceil_div contentLen batchSize) <= fuel)%nat ->
        chunkPlan fuel contentLen batchSize 0 = Some plan) /\
    tiles 0 contentLen plan /\
    sized batchSize plan /\
    Z.of_nat (length plan) = ceil_div contentLen batchSize /\
    numChunksOf contentLen batchSize = Z.of_nat (length plan) /\
    (length plan = 0%nat <-> contentLen = 0).
Proof.
  intros Hlen Hbatch Hfit.
  pose proof (ceil_div_bounds contentLen batchSize Hbatch Hlen) as (H0 & H1 & H2).
  pose proof (ceil_div_zero contentLen batchSize Hbatch Hlen) as Hz.
  exists (planOf contentLen batchSize).
  assert (Hn : Z.of_nat (length (planOf contentLen batchSize))
               = ceil_div contentLen batchSize).
  { unfold planOf. rewrite planFrom_length. lia. }
  split; [intros fuel Hf; now apply chunkPlan_planOf|].
  split.
  { unfold planOf.
    destruct (Z.to_nat (ceil_div contentLen batchSize)) as [|m] eqn:Em.
    - simpl. symmetry. apply Hz. lia.
    - change 0 with (0 * batchSize) at 1.
      apply planFrom_tiles; trivial; lia. }
  split; [apply planFrom_sized; trivial; lia|].
  split; [exact Hn|].
  split; [rewrite Hn; now apply numChunksOf_ceil|].
  rewrite <- Hz, <- Hn. lia.
Qed.

(** The plan of the specification's scenario: 25 MB in batches of 16 MB. *)
Lemma chunk_plan_correct_witness :
  exists plan : list (Z * Z),
    chunkPlan 2 (25 * 2 ^ 20) (Int64.shl 16 20) 0 = Some plan /\
    tiles 0 (25 * 2 ^ 20) plan /\ length plan = 2%nat.
Proof.
  destruct (chunk_plan_correct (25 * 2 ^ 20) (Int64.shl 16 20))
    as (plan & Hrun & Ht & _ & Hn & _); [vm_compute; congruence | reflexivity
    | vm_compute; congruence |].
  exists plan. split; [apply Hrun; vm_compute; lia|]. split; [exact Ht|].
  change (ceil_div (25 * 2 ^ 20) (Int64.shl 16 20)) with 2 in Hn. lia.
Defined.

(** C1 as stated fails when [offset + batchSize] overflows: with
    [-b 4398046511104] the batch is [2^62] bytes, and for a content length
    of [2^63 - 1] the second range is [[2^62, -2^63)]. *)
Lemma chunk_plan_overflow :
  Int64.shl 4398046511104 20 = 2 ^ 62 /\
  0 <= 2 ^ 63 - 1 /\ 0 < 2 ^ 62 /\
  ~ (exists (fuel : nat) (plan : list (Z * Z)),
        chunkPlan fuel (2 ^ 63 - 1) (2 ^ 62) 0 = Some plan /\
        tiles 0 (2 ^ 63 - 1) plan).
Proof.
  split; [reflexivity|]. split; [lia|]. split; [lia|].
  intros (fuel & plan & Hrun & Ht).
  destruct fuel as [|[|fuel]]; [discriminate Hrun..|].
  cbn [chunkPlan] in Hrun.
  change (0 <? 2 ^ 63 - 1) with true in Hrun.
  change (chunkEnd (2 ^ 63 - 1) (2 ^ 62) 0) with (2 ^ 62) in Hrun.
  change (2 ^ 62 <? 2 ^ 63 - 1) with true in Hrun.
  change (chunkEnd (2 ^ 63 - 1) (2 ^ 62) (2 ^ 62)) with (- 2 ^ 63) in Hrun.
  cbv iota in Hrun.
  destruct (chunkPlan fuel (2 ^ 63 - 1) (2 ^ 62) (- 2 ^ 63)); [|discriminate].
  injection Hrun as <-. cbn [tiles] in Ht. lia.
Qed.

(** The same run in [downloadAndWrite]: the second chunk announced is
    [[2^62, -2^63)], and it is asked for as the bytes [2^62 .. 2^63 - 1]. *)
Example overflow_run :
  let run := @downloadAndWrite (Server.constant Sample.huge_size)
               Sample.cfg_huge_batch 2 Sample.f1 okWriter [] in
  ranges_of (snd run) = [(0, 2 ^ 62); (2 ^ 62, - 2 ^ 63)] /\
  map (fun r => Header_Get (ReqHeader r) "Range") (requests_of (snd run))
  = ["bytes=0-4611686018427387903"%string;
     "bytes=4611686018427387904-9223372036854775807"%string].
Proof. vm_compute. split; reflexivity. Qed.

(* ================================================================== *)
(** ** Traces *)

Section TraceFacts.

Lemma writes_of_app (t1 t2 : Trace) :
  writes_of (t1 ++ t2) = writes_of t1 ++ writes_of t2.
Proof. apply omap_app. Qed.

Lemma requests_of_app (t1 t2 : Trace) :
  requests_of (t1 ++ t2) = requests_of t1 ++ requests_of t2.
Proof. apply omap_app. Qed.

Lemma ranges_of_app (t1 t2 : Trace) :
  ranges_of (t1 ++ t2) = ranges_of t1 ++ ranges_of t2.
Proof. apply omap_app. Qed.

Lemma attempts_of_app (t1 t2 : Trace) :
  attempts_of (t1 ++ t2) = (attempts_of t1 + attempts_of t2)%nat.
Proof. unfold attempts_of. now rewrite omap_app, length_app. Qed.

Lemma sink_of_app (t1 t2 : Trace) :
  sink_of (t1 ++ t2) = sink_of t1 ++ sink_of t2.
Proof. unfold sink_of. now rewrite writes_of_app, map_app, concat_app. Qed.

Variables (req : Request) (url : string).

(** A chunk fetch writes nothing and announces nothing. *)
Lemma fetch_events_silent (t : Trace) :
  Forall (fetch_event req url) t ->
  writes_of t = [] /\ ranges_of t = [] /\
  (forall (cur : option (Z * Z)) (t' : Trace),
      chunk_requests cur (t ++ t')
      = map (fun r => (cur, r)) (requests_of t) ++ chunk_requests cur t') /\
  Forall (fun r => r = req) (requests_of t).
Proof.
  induction 1 as [|e t He Ht (IHw & IHr & IHc & IHq)]; [now repeat split|].
  destruct e as [| | r | | [] | |]; simpl in He; try contradiction;
    (repeat split; [exact IHw | exact IHr | | ]);
    try (intros cur t'; cbn; now rewrite IHc); trivial.
  subst r. cbn. now constructor.
Qed.

End TraceFacts.

(* ================================================================== *)
(** ** The Range Fetcher and the Retrying Fetcher *)

Section Fetching.

Context {E : Env} {C : Config}.
Variables (url : string) (first last : Z).

Local Abbreviation req := (rangeRequest url first last).
Local Abbreviation events := (attemptEvents url first last).

Lemma downloadChunk_trace (t : Trace) :
  snd (downloadChunk url first last t) = t ++ events.
Proof.
  unfold downloadChunk, attemptEvents, bind, http_NewRequest, client_Do, ret.
  destruct (env_NewRequest "GET" url); simpl; [reflexivity|].
  destruct (env_Do _ _) as [resp|err]; simpl.
  - destruct (Body resp) as [bs [err|]]; simpl; now rewrite <- app_assoc.
  - now rewrite <- app_assoc.
Qed.

Lemma downloadChunk_result (t : Trace) :
  fst (downloadChunk url first last t) =
  match env_NewRequest "GET" url with
  | Some err => (None, Some err)
  | None =>
      match env_Do (t ++ [EvNewRequest "GET" url]) req with
      | inr err => (None, Some err)
      | inl resp =>
          match Body resp with
          | (_, Some err) => (None, Some err)
          | (bs, None) => (Some bs, None)
          end
      end
  end.
Proof.
  unfold downloadChunk, rangeRequest, bind, http_NewRequest, client_Do, ret.
  destruct (env_NewRequest "GET" url); simpl; [reflexivity|].
  destruct (env_Do _ _) as [resp|err]; simpl; [|reflexivity].
  destruct (Body resp) as [bs [err|]]; reflexivity.
Qed.

(** A failed fetch hands no bytes to its caller. *)
Lemma downloadChunk_fails (t : Trace) :
  fetch_fails url first last t ->
  exists err, fst (downloadChunk url first last t) = (None, Some err).
Proof.
  unfold fetch_fails. rewrite downloadChunk_result.
  destruct (env_NewRequest "GET" url); [eauto|].
  destruct (env_Do _ _) as [resp|err]; [|eauto].
  destruct (Body resp) as [bs [err|]]; [eauto|]. simpl. congruence.
Qed.

Lemma downloadChunk_ok (t : Trace) :
  fetch_ok url first last t ->
  exists bs, fst (downloadChunk url first last t) = (Some bs, None).
Proof.
  unfold fetch_ok. rewrite downloadChunk_result.
  destruct (env_NewRequest "GET" url); [discriminate|].
  destruct (env_Do _ _) as [resp|err]; [|discriminate].
  destruct (Body resp) as [bs [err|]]; [discriminate|eauto].
Qed.

Lemma attemptEvents_attempts : attempts_of events = 1%nat.
Proof.
  unfold attemptEvents.
  destruct (env_NewRequest "GET" url); reflexivity.
Qed.

Lemma attemptEvents_fetch : Forall (fetch_event req url) events.
Proof.
  unfold attemptEvents.
  destruct (env_NewRequest "GET" url); repeat constructor.
Qed.

(** One turn of the retry loop after a failed, or a successful, fetch. *)
Lemma retryLoop_fail_step (n : nat) (i : Z) cur (t : Trace) bs err :
  fst (downloadChunk url first last t) = (bs, Some err) ->
  retryLoop (S n) i url first last cur t
  = retryLoop n (i + 1) url first last (bs, Some err)
      (t ++ events ++ [EvStderr (Retrying i MaxRetry err); EvSleep 1]).
Proof.
  intros H. cbn [retryLoop]. unfold bind at 1.
  pose proof (downloadChunk_trace t) as Ht.
  destruct (downloadChunk url first last t) as [r t1]. simpl in H, Ht. subst r t1.
  cbn [snd]. unfold bind, emit. now rewrite <- !app_assoc.
Qed.

Lemma retryLoop_ok_step (n : nat) (i : Z) cur (t : Trace) :
  fetch_ok url first last t ->
  retryLoop (S n) i url first last cur t = downloadChunk url first last t.
Proof.
  unfold fetch_ok. intros H. cbn [retryLoop]. unfold bind at 1.
  destruct (downloadChunk url first last t) as [r t1]. simpl in H.
  now rewrite H.
Qed.

(** What any run of the retry loop adds to the trace. *)
Lemma retryLoop_trace (n : nat) :
  forall (i : Z) cur (t : Trace),
  exists tn, snd (retryLoop n i url first last cur t) = t ++ tn /\
             Forall (fetch_event req url) tn.
Proof.
  induction n as [|n IH]; intros i cur t.
  - exists []. split; [now rewrite app_nil_r | constructor].
  - destruct (snd (fst (downloadChunk url first last t))) as [err|] eqn:Hr.
    + destruct (downloadChunk_fails t) as [err' He]; [unfold fetch_fails; congruence|].
      rewrite (retryLoop_fail_step n i cur t None err' He).
      destruct (IH (i + 1) (None, Some err')
                  (t ++ events ++ [EvStderr (Retrying i MaxRetry err'); EvSleep 1]))
        as (tn & Hs & Hf).
      exists ((events ++ [EvStderr (Retrying i MaxRetry err'); EvSleep 1]) ++ tn).
      split; [now rewrite Hs, <- !app_assoc|].
      apply Forall_app. split; [|exact Hf].
      apply Forall_app. split; [apply attemptEvents_fetch|].
      repeat constructor.
    + rewrite retryLoop_ok_step by exact Hr.
      exists events. split; [apply downloadChunk_trace | apply attemptEvents_fetch].
Qed.

(** While the fetch keeps failing, the loop keeps turning: after [j]
    failures it has made [j] attempts and holds the last failure. *)
Lemma retry_failures (j : nat) :
  forall (n : nat) (i : Z) cur (t0 : Trace),
    (forall t', (attempts_of t' < j)%nat -> fetch_fails url first last (t0 ++ t')) ->
    exists tj cur',
      retryLoop (j + n) i url first last cur t0
      = retryLoop n (i + Z.of_nat j) url first last cur' (t0 ++ tj) /\
      attempts_of tj = j /\
      match j with
      | O => cur' = cur /\ tj = []
      | S j' =>
          exists tl err,
            attempts_of tl = j' /\
            fst (downloadChunk url first last (t0 ++ tl)) = (None, Some err) /\
            cur' = (None, Some err) /\
            tj = tl ++ events
                   ++ [EvStderr (Retrying (i + Z.of_nat j') MaxRetry err); EvSleep 1]
      end.
Proof.
  induction j as [|j IH]; intros n i cur t0 Hfail.
  - exists [], cur. now rewrite app_nil_r, Z.add_0_r.
  - destruct (downloadChunk_fails t0) as [e0 He0].
    { rewrite <- (app_nil_r t0). apply Hfail. cbn. lia. }
    set (d := events ++ [EvStderr (Retrying i MaxRetry e0); EvSleep 1]).
    assert (Hd : attempts_of d = 1%nat).
    { subst d. rewrite attempts_of_app, attemptEvents_attempts. reflexivity. }
    cbn [Nat.add]. rewrite (retryLoop_fail_step (j + n) i cur t0 None e0 He0).
    fold d.
    destruct (IH n (i + 1) (None, Some e0) (t0 ++ d)) as (tj & cur' & Hrun & Hn & Hlast).
    { intros t' Ht'. rewrite <- app_assoc. apply Hfail.
      rewrite attempts_of_app, Hd. lia. }
    exists (d ++ tj), cur'. rewrite app_assoc.
    split; [rewrite Hrun; f_equal; lia|].
    split; [rewrite attempts_of_app, Hd, Hn; reflexivity|].
    destruct j as [|j'].
    + destruct Hlast as [-> ->]. exists [], e0.
      rewrite app_nil_r, Z.add_0_r. now rewrite app_nil_r.
    + destruct Hlast as (tl & err & Hl & Hf & -> & ->).
      exists (d ++ tl), err.
      split; [rewrite attempts_of_app, Hd, Hl; reflexivity|].
      split; [now rewrite app_assoc|]. split; [reflexivity|].
      rewrite <- app_assoc.
      replace (i + 1 + Z.of_nat j') with (i + Z.of_nat (S j')) by lia. reflexivity.
Qed.

End Fetching.

(** C3.  For every [MaxRetry >= 1], when the fetch fails on every attempt,
    [downloadChunkWithRetry] calls [downloadChunk] exactly [MaxRetry] times
    and returns the failure of the last of these calls (with no bytes). *)
Theorem retry_exhausted {E : Env} {C : Config}
    (url : string) (first last : Z) (t0 : Trace) :
  1 <= MaxRetry ->
  (forall t : Trace, fetch_fails url first last t) ->
  exists (tl : Trace) (err : error),
    let final := attemptEvents url first last
                   ++ [EvStderr (Retrying (MaxRetry - 1) MaxRetry err); EvSleep 1] in
    Z.of_nat (attempts_of tl) = MaxRetry - 1 /\
    fst (downloadChunk url first last (t0 ++ tl)) = (None, Some err) /\
    downloadChunkWithRetry url first last t0 = ((None, Some err), t0 ++ tl ++ final) /\
    Z.of_nat (attempts_of (tl ++ final)) = MaxRetry.
Proof.
  intros Hmax Hfail. unfold downloadChunkWithRetry.
  destruct (Z.to_nat MaxRetry) as [|m] eqn:Em; [lia|].
  destruct (retry_failures url first last (S m) 0 0 (None, None) t0)
    as (tj & cur' & Hrun & Hn & tl & err & Hl & Hf & -> & ->).
  { intros t' _. apply Hfail. }
  rewrite Nat.add_0_r in Hrun. exists tl, err. cbn zeta.
  replace (MaxRetry - 1) with (0 + Z.of_nat m) by lia.
  split; [lia|]. split; [exact Hf|]. split; [exact Hrun|]. lia.
Qed.

(** Three attempts against a host that refuses every connection. *)
Lemma retry_exhausted_witness :
  fst (@downloadChunkWithRetry Server.down Sample.cfg Sample.f1 0 4 [])
  = (None, Some (ErrNet "connection refused")) /\
  attempts_of (snd (@downloadChunkWithRetry Server.down Sample.cfg Sample.f1 0 4 []))
  = 3%nat.
Proof.
  destruct (@retry_exhausted Server.down Sample.cfg Sample.f1 0 4 [])
    as (tl & err & Hl & Hf & Hrun & Hn).
  - cbn. lia.
  - intros t. unfold fetch_fails. rewrite downloadChunk_result. cbn. discriminate.
  - rewrite downloadChunk_result in Hf. cbn in Hf.
    injection Hf as <-. rewrite Hrun. cbn [fst snd app].
    split; [reflexivity|]. change (@MaxRetry Sample.cfg) with 3 in *. lia.
Defined.

(** C4.  For every [k < MaxRetry], when the fetch fails on its first [k]
    attempts and succeeds on the next, [downloadChunkWithRetry] calls
    [downloadChunk] exactly [k + 1] times and returns what the last call
    returned; nothing follows the successful call. *)
Theorem retry_until_success {E : Env} {C : Config}
    (k : nat) (url : string) (first last : Z) (t0 : Trace) :
  Z.of_nat k < MaxRetry ->
  (forall t' : Trace,
      (attempts_of t' < k)%nat -> fetch_fails url first last (t0 ++ t')) ->
  (forall t' : Trace,
      attempts_of t' = k -> fetch_ok url first last (t0 ++ t')) ->
  exists (tl : Trace) (bs : list byte),
    attempts_of tl = k /\
    downloadChunk url first last (t0 ++ tl)
    = ((Some bs, None), t0 ++ tl ++ attemptEvents url first last) /\
    downloadChunkWithRetry url first last t0
    = ((Some bs, None), t0 ++ tl ++ attemptEvents url first last) /\
    attempts_of (tl ++ attemptEvents url first last) = S k.
Proof.
  intros Hk Hfail Hok. unfold downloadChunkWithRetry.
  destruct (retry_failures url first last k (S (Z.to_nat MaxRetry - S k)) 0
              (None, None) t0 Hfail) as (tj & cur' & Hrun & Hn & _).
  replace (k + S (Z.to_nat MaxRetry - S k))%nat with (Z.to_nat MaxRetry) in Hrun by lia.
  rewrite retryLoop_ok_step in Hrun by (apply Hok; exact Hn).
  destruct (downloadChunk_ok url first last (t0 ++ tj)) as [bs Hbs];
    [apply Hok; exact Hn|].
  assert (Hd : downloadChunk url first last (t0 ++ tj)
               = ((Some bs, None), t0 ++ tj ++ attemptEvents url first last)).
  { rewrite app_assoc, <- downloadChunk_trace, <- Hbs.
    now destruct (downloadChunk url first last (t0 ++ tj)). }
  exists tj, bs. split; [exact Hn|]. split; [exact Hd|].
  split; [now rewrite Hrun|].
  rewrite attempts_of_app, attemptEvents_attempts. lia.
Qed.

(** Two refused connections, then the bytes 0 .. 4 of the first file. *)
Lemma retry_until_success_witness :
  fst (@downloadChunkWithRetry (Server.flaky 2 Sample.files) Sample.cfg
         Sample.f1 0 4 [])
  = (Some (list_byte_of_string "hello"), None) /\
  attempts_of (snd (@downloadChunkWithRetry (Server.flaky 2 Sample.files) Sample.cfg
                      Sample.f1 0 4 []))
  = 3%nat.
Proof.
  destruct (@retry_until_success (Server.flaky 2 Sample.files) Sample.cfg
              2 Sample.f1 0 4 []) as (tl & bs & Hl & Hd & Hrun & Hn).
  - cbn. lia.
  - intros t' Ht'. unfold fetch_fails. rewrite downloadChunk_result.
    cbn [Server.flaky env_NewRequest env_Do app].
    rewrite attempts_of_app.
    destruct (Nat.leb_spec (attempts_of t' + attempts_of [EvNewRequest "GET" Sample.f1]) 2)
      as [_|Hgt]; [discriminate|]. cbn in Hgt. lia.
  - intros t' Ht'. unfold fetch_ok. rewrite downloadChunk_result.
    cbn [Server.flaky env_NewRequest env_Do app].
    rewrite attempts_of_app, Ht'. reflexivity.
  - rewrite Hrun. cbn [fst snd app]. split; [|exact Hn].
    apply (f_equal fst) in Hd. rewrite downloadChunk_result in Hd.
    cbn [Server.flaky env_NewRequest env_Do app fst] in Hd.
    rewrite attempts_of_app, Hl in Hd. cbn in Hd. now rewrite <- Hd.
Defined.

(** C5 (as amended).  [downloadChunk] returns an error, and no bytes,
    whenever the request cannot be built, the connection fails, or reading
    the response body fails (the bytes read before the failure are dropped).
    The status of the response is not looked at: a response whose body is
    read to its end is returned as a success, whatever its status. *)
Theorem downloadChunk_errors {E : Env}
    (url : string) (first last : Z) (t : Trace) :
  let t1 := t ++ [EvNewRequest "GET" url] in
  let req := rangeRequest url first last in
  (forall err : error,
      env_NewRequest "GET" url = Some err ->
      fst (downloadChunk url first last t) = (None, Some err)) /\
  (env_NewRequest "GET" url = None ->
   (forall err : error,
       env_Do t1 req = inr err ->
       fst (downloadChunk url first last t) = (None, Some err)) /\
   (forall (resp : Response) (partial : list byte) (err : error),
       env_Do t1 req = inl resp -> Body resp = (partial, Some err) ->
       fst (downloadChunk url first last t) = (None, Some err)) /\
   (forall (resp : Response) (bs : list byte),
       env_Do t1 req = inl resp -> Body resp = (bs, None) ->
       fst (downloadChunk url first last t) = (Some bs, None))).
Proof.
  cbn zeta. rewrite downloadChunk_result. split.
  - intros err ->. reflexivity.
  - intros ->. repeat split.
    + intros err ->. reflexivity.
    + intros resp partial err -> ->. reflexivity.
    + intros resp bs -> ->. reflexivity.
Qed.

(** A body that breaks after five bytes: the five bytes are dropped. *)
Lemma downloadChunk_errors_witness :
  Body Sample.truncated = (list_byte_of_string "hello", Some (ErrNet "unexpected EOF")) /\
  fst (@downloadChunk (Server.constant Sample.truncated) Sample.f1 0 4 [])
  = (None, Some (ErrNet "unexpected EOF")).
Proof.
  split; [reflexivity|].
  apply (proj1 (proj2 (proj2 (@downloadChunk_errors (Server.constant Sample.truncated)
                                Sample.f1 0 4 []) eq_refl))
           Sample.truncated (list_byte_of_string "hello"));
    reflexivity.
Defined.

(** C5 as stated fails for a response with a non-success status: the body
    of a "404 Not Found" answer is returned as the bytes of the range, with
    no error. *)
Lemma not_found_accepted :
  StatusCode Sample.not_found = 404 /\
  @downloadChunk (Server.constant Sample.not_found) Sample.f1 0 4 []
  = ((Some (list_byte_of_string "Not Found"), None),
     [EvNewRequest "GET" Sample.f1; EvDo (rangeRequest Sample.f1 0 4)]).
Proof. split; reflexivity. Qed.

(* ================================================================== *)
(** ** [strconv.ParseInt] *)

Module ParseFacts.

Lemma digit_range (c : ascii) (d : Z) : strconv.digit c = Some d -> 0 <= d <= 9.
Proof.
  unfold strconv.digit.
  destruct (Z.leb_spec 48 (Z.of_nat (nat_of_ascii c)));
    destruct (Z.leb_spec (Z.of_nat (nat_of_ascii c)) 57); simpl;
    intros [= <-]; lia.
Qed.

Lemma digits_acc_ge (s : string) :
  forall n v : Z, 0 <= n -> digits_acc s n = Some v -> n <= v.
Proof.
  induction s as [|c s IH]; intros n v Hn; simpl.
  - intros [= <-]. lia.
  - destruct (strconv.digit c) as [d|] eqn:Ed; [|discriminate].
    apply digit_range in Ed. intros H. apply IH in H; lia.
Qed.

Lemma uint_loop_spec (s : string) :
  forall n v : Z,
    0 <= n <= strconv.maxUint64 ->
    strconv.uint_loop s n = inl v <->
    digits_acc s n = Some v /\ v <= strconv.maxUint64.
Proof.
  change strconv.maxUint64 with 18446744073709551615.
  induction s as [|c s IH]; intros n v Hn; simpl.
  - split; [intros [= <-]; split; [reflexivity|lia] | intros [[= <-] _]; reflexivity].
  - destruct (strconv.digit c) as [d|] eqn:Ed;
      [|split; [discriminate | intros [H _]; discriminate]].
    apply digit_range in Ed.
    change strconv.cutoff with 1844674407370955162.
    change strconv.maxUint64 with 18446744073709551615.
    change (2 ^ 64) with 18446744073709551616.
    destruct (Z.geb_spec n 1844674407370955162).
    { split; [discriminate|]. intros [Hacc Hv].
      apply digits_acc_ge in Hacc; lia. }
    destruct (Z_le_gt_dec (n * 10 + d) 18446744073709551615) as [Hfit|Hover].
    + rewrite Z.mod_small by lia.
      destruct (Z.ltb_spec (n * 10 + d) (n * 10)); [lia|].
      destruct (Z.gtb_spec (n * 10 + d) 18446744073709551615); [lia|].
      simpl. apply IH. lia.
    + replace ((n * 10 + d) mod 18446744073709551616)
        with (n * 10 + d - 18446744073709551616).
      2:{ apply Z.mod_unique with (q := 1); lia. }
      destruct (Z.ltb_spec (n * 10 + d - 18446744073709551616) (n * 10)); [|lia].
      simpl. split; [discriminate|]. intros [Hacc Hv].
      apply digits_acc_ge in Hacc; lia.
Qed.

Lemma ParseUint_spec (s : string) (v : Z) :
  strconv.ParseUint s = inl v <->
  digits_value s = Some v /\ v <= strconv.maxUint64.
Proof.
  destruct s as [|c s]; [split; [discriminate | intros [H _]; discriminate]|].
  apply uint_loop_spec. unfold strconv.maxUint64. lia.
Qed.

Lemma digits_value_nonneg (s : string) (v : Z) : digits_value s = Some v -> 0 <= v.
Proof.
  destruct s; [discriminate|]. unfold digits_value.
  intros H. apply digits_acc_ge in H; lia.
Qed.

(** [ParseInt] accepts exactly the decimal literals of the integers of
    an [int64], and returns the integer. *)
Lemma ParseInt_spec (s0 : string) (z : Z) :
  strconv.ParseInt s0 = (z, None) <->
  literal_value s0 = Some z /\ Int64.in_range z.
Proof.
  destruct s0 as [|c rest]; [split; [discriminate | intros [H _]; discriminate]|].
  unfold strconv.ParseInt, literal_value, Int64.in_range, Int64.min_int, Int64.max_int.
  assert (Hwrap : forall x, - 2 ^ 63 <= x <= 2 ^ 63 - 1 -> Int64.wrap x = x)
    by (intros; now apply Int64Facts.wrap_id).
  assert (Hmin : Int64.wrap (- Int64.wrap (2 ^ 63)) = - 2 ^ 63) by reflexivity.
  change strconv.maxUint64 with (2 ^ 64 - 1) in *.
  destruct (Ascii.eqb_spec c "+") as [->|Hp].
  - change (Ascii.eqb "+" "-") with false. cbn [orb negb andb].
    destruct (strconv.ParseUint rest) as [un|[]] eqn:Eu.
    + apply ParseUint_spec in Eu as [Hd Hm].
      pose proof (digits_value_nonneg _ _ Hd).
      rewrite Hd. destruct (Z.geb_spec un (2 ^ 63)).
      * split; [discriminate | intros [[= <-] ?]; lia].
      * rewrite Hwrap by lia.
        split; [intros [= <-]; split; [reflexivity|lia] | intros [[= <-] _]; reflexivity].
    + split; [discriminate|]. intros [Hd Hr].
      pose proof (proj2 (ParseUint_spec rest z)) as H.
      rewrite H in Eu; [discriminate|]. split; [exact Hd|]. unfold strconv.maxUint64. lia.
    + split; [discriminate|]. intros [Hd Hr].
      pose proof (proj2 (ParseUint_spec rest z)) as H.
      rewrite H in Eu; [discriminate|]. split; [exact Hd|]. unfold strconv.maxUint64. lia.
  - destruct (Ascii.eqb_spec c "-") as [->|Hm].
    + cbn [orb negb andb].
      destruct (strconv.ParseUint rest) as [un|[]] eqn:Eu.
      * apply ParseUint_spec in Eu as [Hd Hmax].
        pose proof (digits_value_nonneg _ _ Hd).
        rewrite Hd. cbn [option_map].
        destruct (Z.gtb_spec un (2 ^ 63)).
        -- split; [discriminate | intros [[= <-] ?]; lia].
        -- destruct (Z.eq_dec un (2 ^ 63)) as [->|].
           ++ rewrite Hmin.
              split; [intros [= <-]; split; [reflexivity|lia] | intros [[= <-] _]; reflexivity].
           ++ rewrite (Hwrap un) by lia. rewrite Hwrap by lia.
              split; [intros [= <-]; split; [reflexivity|lia] | intros [[= <-] _]; reflexivity].
      * split; [discriminate|]. intros [Hd Hr].
        destruct (digits_value rest) as [v|] eqn:Ev; [|discriminate].
        injection Hd as <-.
        pose proof (proj2 (ParseUint_spec rest v)) as H.
        rewrite H in Eu; [discriminate|]. split; [exact Ev|]. unfold strconv.maxUint64. lia.
      * split; [discriminate|]. intros [Hd Hr].
        destruct (digits_value rest) as [v|] eqn:Ev; [|discriminate].
        injection Hd as <-.
        pose proof (proj2 (ParseUint_spec rest v)) as H.
        rewrite H in Eu; [discriminate|]. split; [exact Ev|]. unfold strconv.maxUint64. lia.
    + cbn [orb negb andb].
      destruct (strconv.ParseUint (String c rest)) as [un|[]] eqn:Eu.
      * apply ParseUint_spec in Eu as [Hd Hmax].
        pose proof (digits_value_nonneg _ _ Hd).
        rewrite Hd. destruct (Z.geb_spec un (2 ^ 63)).
        -- split; [discriminate | intros [[= <-] ?]; lia].
        -- rewrite Hwrap by lia.
           split; [intros [= <-]; split; [reflexivity|lia] | intros [[= <-] _]; reflexivity].
      * split; [discriminate|]. intros [Hd Hr].
        pose proof (proj2 (ParseUint_spec (String c rest) z)) as H.
        rewrite H in Eu; [discriminate|]. split; [exact Hd|]. unfold strconv.maxUint64. lia.
      * split; [discriminate|]. intros [Hd Hr].
        pose proof (proj2 (ParseUint_spec (String c rest) z)) as H.
        rewrite H in Eu; [discriminate|]. split; [exact Hd|]. unfold strconv.maxUint64. lia.
Qed.

(** Either an integer and no error, or zero-or-a-bound and an error. *)
Lemma ParseInt_error (s : string) :
  ~ denotes_int64 s ->
  exists (z : Z) (err : error),
    strconv.ParseInt s = (z, Some err) /\ (err = ErrSyntax s \/ err = ErrRange s).
Proof.
  intros Hno.
  destruct (strconv.ParseInt s) as [z [err|]] eqn:Ep.
  - exists z, err. split; [reflexivity|].
    unfold strconv.ParseInt in Ep.
    destruct s as [|c rest]; [injection Ep as <- <-; auto|].
    cbv zeta in Ep.
    destruct (strconv.ParseUint _) as [un|[]];
      repeat match type of Ep with
             | context [if ?b then _ else _] => destruct b
             end;
      first [discriminate Ep | injection Ep as <- <-; auto].
  - exfalso. apply Hno. exists z. now apply ParseInt_spec.
Qed.

End ParseFacts.

(* ================================================================== *)
(** ** The Capability Prober and the Chunked Downloader, step by step *)

Section Downloader.

Context {E : Env} {C : Config}.
Variables (url : string) (w : Writer).

Lemma checkHeaders_eq (t : Trace) :
  checkHeaders url t =
  (match env_Head t url with
   | inr err => (0, Some err)
   | inl resp =>
       if negb (String.eqb (Header_Get (RespHeader resp) "Accept-Ranges") "bytes")
       then (0, Some ErrAcceptRanges)
       else match strconv.ParseInt (Header_Get (RespHeader resp) "Content-Length") with
            | (_, Some err) => (0, Some err)
            | (contentLen, None) => (contentLen, None)
            end
   end, t ++ [EvHead url]).
Proof.
  unfold checkHeaders, bind, http_Head, ret.
  destruct (env_Head t url) as [resp|err]; [|reflexivity].
  destruct (negb _); [reflexivity|].
  destruct (strconv.ParseInt _) as [n [err|]]; reflexivity.
Qed.

Lemma checkHeaders_in_range (t : Trace) (n : Z) :
  fst (checkHeaders url t) = (n, None) -> Int64.in_range n.
Proof.
  rewrite checkHeaders_eq. cbn [fst].
  destruct (env_Head t url) as [resp|err]; [|discriminate].
  destruct (negb _); [discriminate|].
  destruct (strconv.ParseInt _) as [m [err|]] eqn:Ep; [discriminate|].
  intros [= <-]. now apply ParseFacts.ParseInt_spec in Ep.
Qed.

Lemma downloadAndWrite_probe_failed (fuel : nat) (t : Trace) (n : Z) (err : error) :
  fst (checkHeaders url t) = (n, Some err) ->
  downloadAndWrite fuel url w t = (Some (Returned (Some err)), t ++ [EvHead url]).
Proof.
  unfold downloadAndWrite, bind. rewrite checkHeaders_eq. cbn [fst].
  intros ->. reflexivity.
Qed.

Lemma downloadAndWrite_probed (fuel : nat) (t : Trace) (contentLen : Z) :
  fst (checkHeaders url t) = (contentLen, None) ->
  downloadAndWrite fuel url w t =
  let batchSize := Int64.shl BatchSizeInMB 20 in
  if batchSize =? 0 then
    (Some (Panicked "runtime error: integer divide by zero"), t ++ [EvHead url])
  else
    downloadLoop fuel url w contentLen batchSize
      (numChunksOf contentLen batchSize) 1 0 (t ++ [EvHead url]).
Proof.
  unfold downloadAndWrite, bind. rewrite checkHeaders_eq. cbn [fst].
  intros ->. cbn [fst snd]. destruct (_ =? 0); reflexivity.
Qed.

Variables contentLen batchSize numChunks : Z.

Lemma downloadLoop_exit (fuel : nat) (chunk offset : Z) (t : Trace) :
  contentLen <= offset ->
  downloadLoop fuel url w contentLen batchSize numChunks chunk offset t
  = (Some (Returned None), t).
Proof.
  intros H. destruct fuel; cbn [downloadLoop];
    destruct (Z.ltb_spec offset contentLen); solve [lia | reflexivity].
Qed.

Lemma downloadLoop_step (fuel : nat) (chunk offset : Z) (t : Trace) :
  offset < contentLen ->
  downloadLoop (S fuel) url w contentLen batchSize numChunks chunk offset t =
  let offsetTo := chunkEnd contentLen batchSize offset in
  let t1 := t ++ [EvStderr (Downloading chunk numChunks offset offsetTo url)] in
  let r := downloadChunkWithRetry url offset (Int64.sub offsetTo 1) t1 in
  match snd (fst r) with
  | Some err => (Some (Returned (Some err)), snd r)
  | None =>
      match snd (Write w (snd r) (fst (fst r))) with
      | Some err => (Some (Returned (Some err)), snd r ++ [EvWrite (fst (fst r))])
      | None =>
          downloadLoop fuel url w contentLen batchSize numChunks
            (Int64.add chunk 1) offsetTo (snd r ++ [EvWrite (fst (fst r))])
      end
  end.
Proof.
  intros H. cbn [downloadLoop].
  destruct (Z.ltb_spec offset contentLen); [|lia].
  unfold bind, emit, w_Write, ret. cbn zeta.
  destruct (downloadChunkWithRetry _ _ _ _) as [[p [err|]] t2]; cbn [fst snd];
    [reflexivity|].
  destruct (Write w t2 p) as [k [err|]]; reflexivity.
Qed.

(** What a chunk fetch adds to the trace. *)
Lemma downloadChunkWithRetry_trace (first last : Z) (t : Trace) :
  exists tn,
    snd (downloadChunkWithRetry url first last t) = t ++ tn /\
    Forall (fetch_event (rangeRequest url first last) url) tn.
Proof. apply retryLoop_trace. Qed.

Lemma chunkEnd_in_range (offset : Z) :
  Int64.in_range contentLen -> Int64.in_range (chunkEnd contentLen batchSize offset).
Proof.
  intros H. unfold chunkEnd. destruct (_ >? _); [exact H|].
  apply Int64Facts.wrap_in_range.
Qed.



(** A run of the loop that returns no error has gone through the plan. *)
Lemma downloadLoop_follows_plan (fuel : nat) :
  forall (chunk offset : Z) (t t' : Trace),
    downloadLoop fuel url w contentLen batchSize numChunks chunk offset t
    = (Some (Returned None), t') ->
    exists tn,
      t' = t ++ tn /\
      chunkPlan fuel contentLen batchSize offset = Some (ranges_of tn).
Proof.
  induction fuel as [|fuel IH]; intros chunk offset t t' Hrun.
  - cbn [downloadLoop chunkPlan] in *.
    destruct (offset <? contentLen); [discriminate|].
    injection Hrun as <-. exists []. now rewrite app_nil_r.
  - destruct (Z_lt_le_dec offset contentLen) as [Hlt|Hge].
    2:{ rewrite downloadLoop_exit in Hrun by exact Hge. injection Hrun as <-.
        exists []. rewrite app_nil_r. split; [reflexivity|].
        cbn [chunkPlan]. destruct (Z.ltb_spec offset contentLen); [lia|reflexivity]. }
    rewrite downloadLoop_step in Hrun by exact Hlt. cbn zeta in Hrun.
    cbn [chunkPlan]. destruct (Z.ltb_spec offset contentLen); [|lia].
    set (offsetTo := chunkEnd contentLen batchSize offset) in *.
    set (line := EvStderr (Downloading chunk numChunks offset offsetTo url)) in *.
    destruct (downloadChunkWithRetry_trace offset (Int64.sub offsetTo 1) (t ++ [line]))
      as (fn & Hfn & Hsilent).
    destruct (downloadChunkWithRetry url offset (Int64.sub offsetTo 1) (t ++ [line]))
      as [[p err] t2]. cbn [fst snd] in *. subst t2.
    destruct err as [err|]; [discriminate|].
    destruct (snd (Write w _ _)) as [err|]; [discriminate|].
    apply IH in Hrun. destruct Hrun as (tn & -> & Hplan).
    destruct (fetch_events_silent _ _ fn Hsilent) as (_ & Hr0 & _ & _).
    exists (line :: fn ++ EvWrite p :: tn).
    split; [now rewrite <- !app_assoc|].
    rewrite Hplan. cbn [option_map]. do 2 f_equal.
    change (line :: ?l) with ([line] ++ l).
    change (EvWrite p :: tn) with ([EvWrite p] ++ tn).
    now rewrite !ranges_of_app, Hr0.
Qed.

End Downloader.

(** C8.  When the probe response has no Accept-Ranges header, or one whose
    value is not [bytes], [checkHeaders] fails with "no supported
    Accept-Ranges found" and [downloadAndWrite] returns that error at once:
    the HEAD request is the only call made for the resource. *)
Theorem no_accept_ranges {E : Env} {C : Config}
    (url : string) (w : Writer) (fuel : nat) (t : Trace) (resp : Response) :
  env_Head t url = inl resp ->
  RespHeader resp !! "Accept-Ranges"%string = None \/
  Header_Get (RespHeader resp) "Accept-Ranges" <> "bytes"%string ->
  checkHeaders url t = ((0, Some ErrAcceptRanges), t ++ [EvHead url]) /\
  downloadAndWrite fuel url w t
  = (Some (Returned (Some ErrAcceptRanges)), t ++ [EvHead url]) /\
  requests_of [EvHead url] = [] /\ attempts_of [EvHead url] = 0%nat.
Proof.
  intros Hhead Hno.
  assert (Hne : Header_Get (RespHeader resp) "Accept-Ranges" <> "bytes"%string).
  { destruct Hno as [Hnone|Hne]; [|exact Hne].
    unfold Header_Get. rewrite Hnone. discriminate. }
  assert (Hc : checkHeaders url t = ((0, Some ErrAcceptRanges), t ++ [EvHead url])).
  { rewrite checkHeaders_eq, Hhead.
    destruct (String.eqb_spec (Header_Get (RespHeader resp) "Accept-Ranges") "bytes");
      [contradiction|reflexivity]. }
  split; [exact Hc|]. split; [|split; reflexivity].
  apply downloadAndWrite_probe_failed with (n := 0). now rewrite Hc.
Qed.

(** A server that announces [Accept-Ranges: none]. *)
Lemma no_accept_ranges_witness :
  @downloadAndWrite (Server.constant Sample.no_ranges) Sample.cfg
    5 Sample.f1 okWriter []
  = (Some (Returned (Some ErrAcceptRanges)), [EvHead Sample.f1]).
Proof.
  apply (@no_accept_ranges (Server.constant Sample.no_ranges) Sample.cfg
           Sample.f1 okWriter 5 [] Sample.no_ranges).
  - reflexivity.
  - right. vm_compute. discriminate.
Defined.

(** C7 (as amended).  When the probe response has no Content-Length
    header, or one whose value is not the decimal literal of an integer
    between [-2^63] and [2^63 - 1], [checkHeaders] fails and
    [downloadAndWrite] returns that error at once: the HEAD request is the
    only call made for the resource.  With [Accept-Ranges: bytes] the error
    is the syntax or range error of [strconv.ParseInt]. *)
Theorem size_unavailable {E : Env} {C : Config}
    (url : string) (w : Writer) (fuel : nat) (t : Trace) (resp : Response) :
  env_Head t url = inl resp ->
  RespHeader resp !! "Content-Length"%string = None \/
  ~ denotes_int64 (Header_Get (RespHeader resp) "Content-Length") ->
  exists err : error,
    checkHeaders url t = ((0, Some err), t ++ [EvHead url]) /\
    downloadAndWrite fuel url w t = (Some (Returned (Some err)), t ++ [EvHead url]) /\
    requests_of [EvHead url] = [] /\ attempts_of [EvHead url] = 0%nat /\
    (Header_Get (RespHeader resp) "Accept-Ranges" = "bytes"%string ->
     err = ErrSyntax (Header_Get (RespHeader resp) "Content-Length") \/
     err = ErrRange (Header_Get (RespHeader resp) "Content-Length")).
Proof.
  intros Hhead Hno.
  assert (Hbad : ~ denotes_int64 (Header_Get (RespHeader resp) "Content-Length")).
  { destruct Hno as [Hnone|Hbad]; [|exact Hbad].
    unfold Header_Get. rewrite Hnone. intros (z & Hz & _). discriminate. }
  destruct (ParseFacts.ParseInt_error _ Hbad) as (z & perr & Hp & Hkind).
  assert (Hc : exists err,
             checkHeaders url t = ((0, Some err), t ++ [EvHead url]) /\
             (Header_Get (RespHeader resp) "Accept-Ranges" = "bytes"%string ->
              err = perr)).
  { rewrite checkHeaders_eq, Hhead, Hp.
    destruct (String.eqb_spec (Header_Get (RespHeader resp) "Accept-Ranges") "bytes");
      cbn [negb]; eexists; (split; [reflexivity|]); [reflexivity|contradiction]. }
  destruct Hc as (err & Hc & Herr). exists err.
  split; [exact Hc|].
  split; [apply downloadAndWrite_probe_failed with (n := 0); now rewrite Hc|].
  split; [reflexivity|]. split; [reflexivity|].
  intros Ha. rewrite (Herr Ha). exact Hkind.
Qed.

(** A server that announces [Content-Length: 12 bytes]. *)
Lemma size_unavailable_witness :
  @downloadAndWrite (Server.constant Sample.bad_size) Sample.cfg
    5 Sample.f1 okWriter []
  = (Some (Returned (Some (ErrSyntax "12 bytes"))), [EvHead Sample.f1]).
Proof.
  destruct (@size_unavailable (Server.constant Sample.bad_size) Sample.cfg
              Sample.f1 okWriter 5 [] Sample.bad_size)
    as (err & Hc & Hrun & _ & _ & Hkind).
  - reflexivity.
  - right. intros (z & Hz & _). vm_compute in Hz. discriminate.
  - rewrite Hrun. rewrite checkHeaders_eq in Hc. vm_compute in Hc.
    injection Hc as <-. reflexivity.
Defined.

(** C7 as stated fails for a negative size: [Content-Length: -5] is
    accepted, [checkHeaders] returns [-5] and no error, and
    [downloadAndWrite] returns no error without fetching anything. *)
Lemma negative_size_accepted :
  Header_Get (RespHeader Sample.negative_size) "Content-Length" = "-5"%string /\
  @checkHeaders (Server.constant Sample.negative_size) Sample.f1 []
  = ((-5, None), [EvHead Sample.f1]) /\
  @downloadAndWrite (Server.constant Sample.negative_size) Sample.cfg
    5 Sample.f1 okWriter []
  = (Some (Returned None), [EvHead Sample.f1]).
Proof. repeat split; vm_compute; reflexivity. Qed.



(* ================================================================== *)
(** ** The requests of a download *)

Section Requests.

Context {E : Env} {C : Config}.
Variables (url : string) (w : Writer).

Lemma rangeRequest_header (first last : Z) :
  ReqHeader (rangeRequest url first last) !! "Range"%string
  = Some [rangeStr first last].
Proof.
  unfold rangeRequest, Header_Add. cbn [ReqHeader].
  now rewrite lookup_insert_eq, lookup_empty.
Qed.

Lemma rangeRequest_Get (first last : Z) :
  Header_Get (ReqHeader (rangeRequest url first last)) "Range" = rangeStr first last.
Proof. unfold Header_Get. now rewrite rangeRequest_header. Qed.



Variables contentLen batchSize numChunks : Z.
Hypothesis len_in_range : Int64.in_range contentLen.


End Requests.


(** The one request for the twelve bytes of the first file. *)
Example range_header_of_first_file :
  map (fun r => Header_Get (ReqHeader r) "Range")
    (requests_of (snd (@downloadAndWrite (Server.static Sample.files) Sample.cfg
                         5 Sample.f1 okWriter [])))
  = ["bytes=0-11"%string].
Proof. vm_compute. reflexivity. Qed.

(* ================================================================== *)
(** ** A retry budget of zero *)

Section NoRetry.

Context {E : Env} {C : Config}.
Variables (url : string) (w : Writer).
Hypothesis no_budget : MaxRetry <= 0.

Lemma no_retry_fetch (first last : Z) (t : Trace) :
  downloadChunkWithRetry url first last t = ((None, None), t).
Proof.
  unfold downloadChunkWithRetry.
  destruct (Z.to_nat MaxRetry) eqn:En; [reflexivity|lia].
Qed.

Variables contentLen batchSize numChunks : Z.
Hypothesis writer_ok : forall (t : Trace) (p : GoBytes), snd (Write w t p) = None.

Lemma no_retry_loop (fuel : nat) :
  forall (chunk offset : Z) (t : Trace) (plan : list (Z * Z)),
    chunkPlan fuel contentLen batchSize offset = Some plan ->
    exists tn,
      downloadLoop fuel url w contentLen batchSize numChunks chunk offset t
      = (Some (Returned None), t ++ tn) /\
      ranges_of tn = plan /\
      writes_of tn = repeat None (length plan) /\
      attempts_of tn = 0%nat /\ requests_of tn = [].
Proof.
  induction fuel as [|fuel IH]; intros chunk offset t plan Hplan.
  - cbn [chunkPlan] in Hplan.
    destruct (Z.ltb_spec offset contentLen); [discriminate|].
    injection Hplan as <-. exists [].
    rewrite downloadLoop_exit by lia. now rewrite app_nil_r.
  - destruct (Z_lt_le_dec offset contentLen) as [Hlt|Hge].
    + cbn [chunkPlan] in Hplan.
      destruct (Z.ltb_spec offset contentLen); [|lia].
      destruct (chunkPlan fuel contentLen batchSize _) as [plan'|] eqn:Hrest;
        [|discriminate].
      injection Hplan as <-.
      rewrite downloadLoop_step by exact Hlt. cbn zeta.
      rewrite no_retry_fetch. cbn [fst snd]. rewrite writer_ok.
      destruct (IH (Int64.add chunk 1) (chunkEnd contentLen batchSize offset)
                  ((t ++ [EvStderr (Downloading chunk numChunks offset
                                      (chunkEnd contentLen batchSize offset) url)])
                     ++ [EvWrite None]) plan' Hrest)
        as (tn & Hrun & Hr & Hw & Ha & Hq).
      exists (EvStderr (Downloading chunk numChunks offset
                          (chunkEnd contentLen batchSize offset) url)
                :: EvWrite None :: tn).
      split; [rewrite Hrun, <- !app_assoc; reflexivity|].
      cbn. fold (ranges_of tn) (writes_of tn) (requests_of tn) (attempts_of tn).
      rewrite Hr, Hw. repeat split; assumption.
    + rewrite downloadLoop_exit by exact Hge. exists [].
      destruct fuel; cbn [chunkPlan] in Hplan;
        (destruct (Z.ltb_spec offset contentLen); [lia|]);
        injection Hplan as <-; now rewrite app_nil_r.
Qed.

End NoRetry.

(** C9.  With [MaxRetry <= 0], [downloadChunkWithRetry] does not call
    [downloadChunk] at all and returns nil bytes with a nil error.
    [downloadAndWrite] then takes every chunk of the plan as fetched: for a
    writer that accepts what it is given, it writes a nil slice for each
    chunk, sends no request, and returns no error. *)
Theorem zero_retry_budget {E : Env} {C : Config}
    (url : string) (w : Writer) (fuel : nat) (t : Trace)
    (contentLen : Z) (plan : list (Z * Z)) :
  MaxRetry <= 0 ->
  (forall (first last : Z) (t' : Trace),
      downloadChunkWithRetry url first last t' = ((None, None), t')) /\
  (fst (checkHeaders url t) = (contentLen, None) ->
   Int64.shl BatchSizeInMB 20 <> 0 ->
   (forall (t' : Trace) (p : GoBytes), snd (Write w t' p) = None) ->
   chunkPlan fuel contentLen (Int64.shl BatchSizeInMB 20) 0 = Some plan ->
   exists tn : Trace,
     downloadAndWrite fuel url w t = (Some (Returned None), t ++ EvHead url :: tn) /\
     ranges_of tn = plan /\
     writes_of tn = repeat None (length plan) /\
     attempts_of tn = 0%nat /\ requests_of tn = [] /\ sink_of tn = []).
Proof.
  intros Hmax. split; [intros; now apply no_retry_fetch|].
  intros Hprobe Hbatch Hw Hplan.
  rewrite (downloadAndWrite_probed url w fuel t contentLen Hprobe). cbn zeta.
  destruct (Z.eqb_spec (Int64.shl BatchSizeInMB 20) 0); [contradiction|].
  destruct (no_retry_loop url w Hmax contentLen (Int64.shl BatchSizeInMB 20)
              (numChunksOf contentLen (Int64.shl BatchSizeInMB 20)) Hw fuel 1 0
              (t ++ [EvHead url]) plan Hplan) as (tn & Hrun & Hr & Hwr & Ha & Hq).
  exists tn. split; [now rewrite Hrun, <- app_assoc|].
  repeat split; try assumption.
  unfold sink_of. rewrite Hwr. clear. induction (length plan); [reflexivity|assumption].
Qed.

(** [gocat -m 0] on the first file: one chunk, one write of nil, no request. *)
Lemma zero_retry_budget_witness :
  exists tn : Trace,
    @downloadAndWrite (Server.static Sample.files) Sample.cfg_no_retry
      5 Sample.f1 okWriter []
    = (Some (Returned None), EvHead Sample.f1 :: tn) /\
    ranges_of tn = [(0, 12)] /\ writes_of tn = [None] /\ requests_of tn = [].
Proof.
  destruct (proj2 (@zero_retry_budget (Server.static Sample.files) Sample.cfg_no_retry
                     Sample.f1 okWriter 5 [] 12 [(0, 12)] ltac:(cbn; lia)))
    as (tn & Hrun & Hr & Hw & _ & Hq & _).
  - reflexivity.
  - vm_compute. discriminate.
  - reflexivity.
  - reflexivity.
  - exists tn. repeat split; assumption.
Defined.

(* ================================================================== *)
(** ** The order of the writes *)

Section Slices.

Variable body : list byte.

Lemma slice_empty (a : Z) : slice body a a = [].
Proof. unfold slice. now rewrite Z.sub_diag. Qed.

Lemma slice_app (a b c : Z) :
  0 <= a -> a <= b -> b <= c ->
  slice body a b ++ slice body b c = slice body a c.
Proof.
  intros Ha Hb Hc. unfold slice.
  replace (Z.to_nat b) with (Z.to_nat a + Z.to_nat (b - a))%nat by lia.
  rewrite <- drop_drop, take_take_drop. f_equal. lia.
Qed.

Lemma slice_all : slice body 0 (Z.of_nat (length body)) = body.
Proof.
  unfold slice. cbn [Z.to_nat drop]. rewrite Z.sub_0_r, Nat2Z.id.
  apply firstn_all.
Qed.

End Slices.

Section InOrder.

Context {E : Env} {C : Config}.
Variables (url : string) (w : Writer) (body : list byte).
Hypothesis Hserved : served url body.

Local Abbreviation size := (Z.of_nat (length body)).
Variables batchSize numChunks : Z.
Hypothesis size_in_range : Int64.in_range size.

Lemma served_loop (fuel : nat) :
  forall (chunk offset : Z) (t t' : Trace),
    0 <= offset <= size ->
    downloadLoop fuel url w size batchSize numChunks chunk offset t
    = (Some (Returned None), t') ->
    exists tn,
      t' = t ++ tn /\
      tiles offset size (ranges_of tn) /\
      writes_of tn = chunk_writes body (ranges_of tn) /\
      sink_of tn = slice body offset size.
Proof.
  destruct Hserved as [_ Hfetch].
  induction fuel as [|fuel IH]; intros chunk offset t t' Ho Hrun.
  - cbn [downloadLoop] in Hrun.
    destruct (Z.ltb_spec offset size); [discriminate|].
    injection Hrun as <-. exists [].
    assert (offset = size) as -> by lia.
    rewrite app_nil_r, slice_empty. now repeat split.
  - destruct (Z_lt_le_dec offset size) as [Hlt|Hge].
    2:{ rewrite downloadLoop_exit in Hrun by exact Hge.
        injection Hrun as <-. exists [].
        assert (offset = size) as -> by lia.
        rewrite app_nil_r, slice_empty. now repeat split. }
    rewrite downloadLoop_step in Hrun by exact Hlt. cbn zeta in Hrun.
    set (offsetTo := chunkEnd size batchSize offset) in *.
    set (line := EvStderr (Downloading chunk numChunks offset offsetTo url)) in *.
    pose proof (chunkEnd_in_range size batchSize offset size_in_range) as Hto.
    fold offsetTo in Hto.
    destruct (downloadChunkWithRetry_trace url offset (Int64.sub offsetTo 1) (t ++ [line]))
      as (fn & Hfn & Hsilent).
    pose proof (Hfetch (t ++ [line]) offset (Int64.sub offsetTo 1)) as Hbytes.
    destruct (downloadChunkWithRetry url offset (Int64.sub offsetTo 1) (t ++ [line]))
      as [[p err] t2]. cbn [fst snd] in *. subst t2.
    destruct err as [err|]; [discriminate|].
    destruct (Hbytes p ltac:(lia) eq_refl) as (H0 & Hle & Hlast & ->).
    assert (Hsub : Int64.sub offsetTo 1 = offsetTo - 1).
    { destruct (Z.eq_dec offsetTo Int64.min_int) as [e|ne].
      - rewrite e in Hlast.
        change (Int64.sub Int64.min_int 1) with Int64.max_int in Hlast.
        unfold Int64.in_range in size_in_range. lia.
      - apply Int64Facts.wrap_id. unfold Int64.in_range in *. lia. }
    rewrite Hsub in *. replace (offsetTo - 1 + 1) with offsetTo in * by lia.
    destruct (snd (Write w _ _)) as [err|]; [discriminate|].
    apply IH in Hrun; [|lia].
    destruct Hrun as (tn & -> & Htiles & Hwrites & Hsink).
    destruct (fetch_events_silent _ _ fn Hsilent) as (Hw0 & Hr0 & _ & _).
    exists (line :: fn ++ EvWrite (Some (slice body offset offsetTo)) :: tn).
    split; [now rewrite <- !app_assoc|].
    assert (Hr : ranges_of (line :: fn ++ EvWrite (Some (slice body offset offsetTo)) :: tn)
                 = (offset, offsetTo) :: ranges_of tn).
    { change (line :: ?l) with ([line] ++ l).
      rewrite !ranges_of_app, Hr0.
      change (EvWrite ?p :: tn) with ([EvWrite p] ++ tn).
      rewrite ranges_of_app. reflexivity. }
    assert (Hw : writes_of (line :: fn ++ EvWrite (Some (slice body offset offsetTo)) :: tn)
                 = Some (slice body offset offsetTo) :: writes_of tn).
    { change (line :: ?l) with ([line] ++ l).
      rewrite !writes_of_app, Hw0.
      change (EvWrite ?p :: tn) with ([EvWrite p] ++ tn).
      rewrite writes_of_app. reflexivity. }
    rewrite Hr. unfold sink_of. rewrite Hw.
    split; [cbn [tiles]; repeat split; trivial; lia|].
    split; [cbn [chunk_writes map fst snd]; now rewrite Hwrites|].
    cbn [map concat bytes_of default]. fold (sink_of tn). rewrite Hsink.
    apply slice_app; lia.
Qed.

End InOrder.

Section InOrderFiles.

Context {E : Env} {C : Config}.

Lemma served_download (url : string) (w : Writer) (body : list byte)
    (fuel : nat) (t t' : Trace) :
  served url body ->
  downloadAndWrite fuel url w t = (Some (Returned None), t') ->
  exists seg, t' = t ++ seg /\ in_order body seg.
Proof.
  intros Hserved Hrun.
  destruct (fst (checkHeaders url t)) as [n [err|]] eqn:Hprobe.
  { rewrite (downloadAndWrite_probe_failed url w fuel t n err Hprobe) in Hrun.
    discriminate. }
  rewrite (downloadAndWrite_probed url w fuel t n Hprobe) in Hrun. cbn zeta in Hrun.
  destruct (_ =? 0); [discriminate|].
  pose proof (checkHeaders_in_range url t n Hprobe) as Hrange.
  assert (n = Z.of_nat (length body)) as -> by (eapply (proj1 Hserved); eauto).
  apply (served_loop url w body Hserved) in Hrun; [|exact Hrange|lia].
  destruct Hrun as (tn & -> & Htiles & Hw & Hsink).
  exists (EvHead url :: tn). split; [now rewrite <- app_assoc|].
  unfold in_order. change (EvHead url :: tn) with ([EvHead url] ++ tn).
  rewrite ranges_of_app, writes_of_app, sink_of_app. cbn [app].
  change (ranges_of [EvHead url]) with (@nil (Z * Z)).
  change (writes_of [EvHead url]) with (@nil GoBytes).
  change (sink_of [EvHead url]) with (@nil byte). cbn [app].
  rewrite Hsink, slice_all. now repeat split.
Qed.



End InOrderFiles.


(* ================================================================== *)
(** ** The server of static files *)

Module ServerFacts.

Lemma split_digits (d : Decimal.uint) (r : string) :
  Server.split_dash (NilEmpty.string_of_uint d +:+ String "-" r)
  = Some (NilEmpty.string_of_uint d, r).
Proof.
  induction d as [|d IH|d IH|d IH|d IH|d IH|d IH|d IH|d IH|d IH|d IH];
    simpl; [reflexivity | ..]; simpl in IH; now rewrite IH.
Qed.

(** A numeral is one byte, a sign or a digit, and then digits. *)
Lemma fmt_int_split (z : Z) :
  exists (c : ascii) (ds : string),
    fmt_int z = String c ds /\
    forall r, Server.split_dash (ds +:+ String "-" r) = Some (ds, r).
Proof.
  unfold fmt_int. destruct z as [|p|p]; cbn [Z.to_int NilZero.string_of_int].
  - exists "0"%char, EmptyString. now split.
  - pose proof (DecimalPos.Unsigned.to_uint_nonnil p) as Hn.
    destruct (Pos.to_uint p) as [|d|d|d|d|d|d|d|d|d|d]; [contradiction|..];
      cbn [NilZero.string_of_uint NilEmpty.string_of_uint];
      do 2 eexists; (split; [reflexivity|]); intros r; apply split_digits.
  - pose proof (DecimalPos.Unsigned.to_uint_nonnil p) as Hn.
    exists "-"%char, (NilZero.string_of_uint (Pos.to_uint p)).
    split; [reflexivity|]. intros r.
    destruct (Pos.to_uint p); [contradiction|..]; apply split_digits.
Qed.

Lemma parse_int_fmt (z : Z) : Server.parse_int (fmt_int z) = Some z.
Proof.
  unfold Server.parse_int, fmt_int. rewrite NilZero.isi.
  - cbn [option_map]. now rewrite DecimalZ.of_to.
  - destruct z; cbn; [discriminate| |discriminate].
    intros [= H]. now apply DecimalPos.Unsigned.to_uint_nonnil in H.
  - destruct z; cbn; [discriminate|discriminate|].
    intros [= H]. now apply DecimalPos.Unsigned.to_uint_nonnil in H.
Qed.

(** The server reads the range the client has written. *)
Lemma parseRange_rangeStr (first last : Z) :
  Server.parseRange (rangeStr first last) = Some (first, last).
Proof.
  unfold rangeStr.
  destruct (fmt_int_split first) as (c & ds & Hs & Hsplit).
  pose proof (parse_int_fmt first) as Hfirst. rewrite Hs in *.
  simpl. change ("-" +:+ fmt_int last) with (String "-" (fmt_int last)).
  rewrite Hsplit, Hfirst, parse_int_fmt. reflexivity.
Qed.

Section Static.

Variable files : list (string * list byte).
Context {C : Config}.
Variables (url : string) (body : list byte).
Hypothesis Hfile : Server.find_file url files = Some body.

Lemma static_fetch (first last : Z) (t : Trace) :
  fst (@downloadChunk (Server.static files) url first last t) =
  if (0 <=? first) && (first <=? last) && (last <? Z.of_nat (length body))
  then (Some (slice body first (last + 1)), None)
  else (None, Some (ErrNet "connection reset by peer")).
Proof.
  rewrite downloadChunk_result.
  cbn [Server.static env_NewRequest env_Do]. unfold Server.get_response.
  change (URL (rangeRequest url first last)) with url.
  rewrite Hfile, rangeRequest_Get, parseRange_rangeStr.
  destruct (_ && _); reflexivity.
Qed.

(** With a retry budget, a chunk fetch that returns without error has
    fetched exactly the bytes asked for. *)
Lemma static_fetch_served (first last : Z) (t : Trace) (p : GoBytes) :
  1 <= MaxRetry ->
  fst (@downloadChunkWithRetry (Server.static files) C url first last t) = (p, None) ->
  range_bytes body first last p.
Proof.
  intros Hmax. unfold downloadChunkWithRetry.
  destruct (Z.to_nat MaxRetry) as [|n] eqn:En; [lia|].
  destruct ((0 <=? first) && (first <=? last) && (last <? Z.of_nat (length body)))
    eqn:Hvalid.
  - rewrite retryLoop_ok_step
      by (unfold fetch_ok; now rewrite static_fetch, Hvalid).
    rewrite static_fetch, Hvalid. intros [= <-].
    unfold range_bytes. repeat split; lia.
  - destruct (@retry_failures (Server.static files) C url first last (S n) 0 0
                (None, None) t) as (tj & cur' & Hrun & _ & tl & err & _ & _ & -> & _).
    { intros t' _. unfold fetch_fails. rewrite static_fetch, Hvalid. discriminate. }
    rewrite Nat.add_0_r in Hrun. rewrite Hrun. discriminate.
Qed.

End Static.

End ServerFacts.

(* ================================================================== *)
(** ** Numerals written by [fmt] and read by [strconv] *)

Module FormatFacts.

Lemma digits_acc_uint_acc (d : Decimal.uint) :
  forall acc : positive,
    digits_acc (NilEmpty.string_of_uint d) (Z.pos acc)
    = Some (Z.pos (Pos.of_uint_acc d acc)).
Proof.
  induction d as [|d IH|d IH|d IH|d IH|d IH|d IH|d IH|d IH|d IH|d IH];
    intros acc; [reflexivity|..];
    cbn [NilEmpty.string_of_uint digits_acc Pos.of_uint_acc];
    match goal with
    | |- context [strconv.digit ?c] =>
        let v := eval vm_compute in (strconv.digit c) in
        change (strconv.digit c) with v
    end; cbv iota; rewrite <- IH; f_equal; lia.
Qed.

Lemma digits_acc_uint (d : Decimal.uint) :
  digits_acc (NilEmpty.string_of_uint d) 0 = Some (Z.of_N (Pos.of_uint d)).
Proof.
  induction d as [|d IH|d IH|d IH|d IH|d IH|d IH|d IH|d IH|d IH|d IH];
    [reflexivity|exact IH|..];
    cbn [NilEmpty.string_of_uint digits_acc Pos.of_uint];
    match goal with
    | |- context [strconv.digit ?c] =>
        let v := eval vm_compute in (strconv.digit c) in
        change (strconv.digit c) with v
    end; cbv iota; cbn [Z.mul Z.add]; apply digits_acc_uint_acc.
Qed.

Lemma digits_value_uint (d : Decimal.uint) :
  d <> Decimal.Nil ->
  digits_value (NilZero.string_of_uint d) = Some (Z.of_N (Pos.of_uint d)) /\
  literal_value (NilZero.string_of_uint d) = Some (Z.of_N (Pos.of_uint d)).
Proof.
  intros Hd. pose proof (digits_acc_uint d) as H.
  destruct d; [contradiction|..]; split; exact H.
Qed.

(** [strconv] reads what [fmt] writes. *)
Lemma literal_value_fmt (z : Z) : literal_value (fmt_int z) = Some z.
Proof.
  destruct z as [|p|p]; [reflexivity|..];
    pose proof (DecimalPos.Unsigned.to_uint_nonnil p) as Hn;
    destruct (digits_value_uint (Pos.to_uint p) Hn) as [Hd Hl];
    rewrite DecimalPos.Unsigned.of_to in Hd, Hl.
  - exact Hl.
  - unfold fmt_int. cbn [Z.to_int NilZero.string_of_int literal_value].
    change (Ascii.eqb "-" "+") with false. change (Ascii.eqb "-" "-") with true.
    cbv iota. now rewrite Hd.
Qed.

Lemma ParseInt_fmt (z : Z) :
  Int64.in_range z -> strconv.ParseInt (fmt_int z) = (z, None).
Proof.
  intros Hz. apply ParseFacts.ParseInt_spec. split; [apply literal_value_fmt|exact Hz].
Qed.

End FormatFacts.

(* ================================================================== *)
(** ** A download from the server of static files *)

Section StaticDownload.

Variable files : list (string * list byte).
Context {C : Config}.
Variables (url : string) (body : list byte).
Hypothesis Hfile : Server.find_file url files = Some body.
Hypothesis budget : 1 <= MaxRetry.

Local Abbreviation size := (Z.of_nat (length body)).
Local Abbreviation batchSize := (Int64.shl BatchSizeInMB 20).

Hypothesis batch_pos : 0 < batchSize.
Hypothesis fits : size + batchSize <= Int64.max_int.

Lemma static_probe (t : Trace) :
  @checkHeaders (Server.static files) url t = ((size, None), t ++ [EvHead url]).
Proof.
  rewrite checkHeaders_eq. cbn [Server.static env_Head]. rewrite Hfile.
  unfold Server.head_response. cbn [RespHeader].
  assert (Ha : Header_Get
                 (<[ "Accept-Ranges"%string := ["bytes"%string] ]>
                    {[ "Content-Length"%string := [fmt_int (Z.of_nat (length body))] ]})
                 "Accept-Ranges" = "bytes"%string).
  { unfold Header_Get. now rewrite lookup_insert_eq. }
  assert (Hc : Header_Get
                 (<[ "Accept-Ranges"%string := ["bytes"%string] ]>
                    {[ "Content-Length"%string := [fmt_int (Z.of_nat (length body))] ]})
                 "Content-Length" = fmt_int (Z.of_nat (length body))).
  { unfold Header_Get. rewrite lookup_insert_ne by discriminate.
    now rewrite lookup_singleton_eq. }
  rewrite Ha, Hc. cbn [String.eqb negb].
  change (("bytes" =? "bytes")%string) with true. cbn [negb].
  rewrite FormatFacts.ParseInt_fmt; [reflexivity|].
  unfold Int64.in_range, Int64.min_int, Int64.max_int in *. lia.
Qed.

Lemma static_served : @served (Server.static files) C url body.
Proof.
  split.
  - intros t n. rewrite static_probe. cbn [fst]. now intros [= <-].
  - intros t first last p _.
    now apply (ServerFacts.static_fetch_served files url body Hfile).
Qed.

Lemma static_loop (fuel : nat) :
  forall (numChunks chunk offset : Z) (t : Trace),
    0 <= offset -> size - offset <= Z.of_nat fuel * batchSize ->
    fst (@downloadLoop (Server.static files) C fuel url okWriter size batchSize
           numChunks chunk offset t)
    = Some (Returned None).
Proof.
  induction fuel as [|fuel IH]; intros numChunks chunk offset t Ho Hf.
  - now rewrite downloadLoop_exit by lia.
  - destruct (Z_lt_le_dec offset size) as [Hlt|Hge];
      [|now rewrite downloadLoop_exit by exact Hge].
    rewrite downloadLoop_step by exact Hlt. cbn zeta.
    rewrite chunkEnd_min by lia.
    set (offsetTo := Z.min (offset + batchSize) size).
    assert (Hsub : Int64.sub offsetTo 1 = offsetTo - 1).
    { apply Int64Facts.wrap_id.
      subst offsetTo. unfold Int64.in_range, Int64.min_int, Int64.max_int in *. lia. }
    rewrite Hsub.
    assert (Hok : forall t', fetch_ok (E := Server.static files) url offset (offsetTo - 1) t').
    { intros t'. unfold fetch_ok.
      rewrite (ServerFacts.static_fetch files url body Hfile).
        destruct (Z.leb_spec 0 offset); [|lia].
      destruct (Z.leb_spec offset (offsetTo - 1)); [|subst offsetTo; lia].
      destruct (Z.ltb_spec (offsetTo - 1) size); [|subst offsetTo; lia].
      reflexivity. }
    unfold downloadChunkWithRetry.
    destruct (Z.to_nat MaxRetry) as [|n] eqn:En; [lia|].
    rewrite retryLoop_ok_step by apply Hok.
    rewrite (Hok _). cbn [okWriter Write snd].
    apply IH; subst offsetTo; lia.
Qed.

(** With a retry budget, a positive batch size and no overflow, the
    download returns without error once it is given one turn of the loop
    per batch, and it has written the body in order. *)
Lemma static_download_completes (fuel : nat) (t : Trace) :
  size <= Z.of_nat fuel * batchSize ->
  exists seg,
    @downloadAndWrite (Server.static files) C fuel url okWriter t
    = (Some (Returned None), t ++ seg) /\
    in_order body seg.
Proof.
  intros Hfuel.
  destruct (@downloadAndWrite (Server.static files) C fuel url okWriter t)
    as [r t'] eqn:Hrun.
  assert (Hr : r = Some (Returned None)).
  { apply (f_equal fst) in Hrun. cbn [fst] in Hrun. rewrite <- Hrun.
    rewrite (downloadAndWrite_probed url okWriter fuel t size)
      by (now rewrite static_probe).
    cbn zeta.
    destruct (Z.eqb_spec batchSize 0); [lia|].
    apply static_loop; lia. }
  subst r.
  destruct (served_download url okWriter body fuel t t' static_served Hrun)
    as (seg & -> & Horder).
  now exists seg.
Qed.

End StaticDownload.


(* ================================================================== *)
(** ** More on the probe *)

(** X1.  [checkHeaders] succeeds with [n] exactly when the HEAD request is
    answered, the first Accept-Ranges value is [bytes], and the first
    Content-Length value is the decimal literal of [n], an integer of an
    [int64].  The status of the answer plays no part. *)
Theorem checkHeaders_succeeds_iff {E : Env} (url : string) (t : Trace) (n : Z) :
  fst (checkHeaders url t) = (n, None) <->
  exists resp : Response,
    env_Head t url = inl resp /\
    Header_Get (RespHeader resp) "Accept-Ranges" = "bytes"%string /\
    literal_value (Header_Get (RespHeader resp) "Content-Length") = Some n /\
    Int64.in_range n.
Proof.
  rewrite checkHeaders_eq. cbn [fst]. split.
  - destruct (env_Head t url) as [resp|err]; [|discriminate].
    destruct (String.eqb_spec (Header_Get (RespHeader resp) "Accept-Ranges") "bytes")
      as [Ha|Ha]; cbn [negb]; [|discriminate].
    destruct (strconv.ParseInt _) as [m [err|]] eqn:Ep; [discriminate|].
    intros [= <-]. apply ParseFacts.ParseInt_spec in Ep as [Hl Hr].
    exists resp. auto.
  - intros (resp & -> & Ha & Hl & Hr). rewrite Ha.
    change (("bytes" =? "bytes")%string) with true. cbn [negb].
    now rewrite (proj2 (ParseFacts.ParseInt_spec _ n) (conj Hl Hr)).
Qed.

(** A "404 Not Found" answer with the two headers is a successful probe. *)
Lemma checkHeaders_succeeds_iff_witness :
  fst (@checkHeaders (Server.constant Sample.not_found) Sample.f1 []) = (9, None).
Proof.
  apply (proj2 (@checkHeaders_succeeds_iff (Server.constant Sample.not_found)
                  Sample.f1 [] 9)).
  exists Sample.not_found. repeat split; vm_compute; congruence.
Defined.

(** X2.  A resource of size zero, or of a negative announced size, is done
    after the probe: when the batch size is not 0, [downloadAndWrite]
    returns no error with the HEAD request as its only call, whatever the
    fuel. *)
Theorem empty_resource {E : Env} {C : Config}
    (url : string) (w : Writer) (fuel : nat) (t : Trace) (contentLen : Z) :
  fst (checkHeaders url t) = (contentLen, None) ->
  contentLen <= 0 ->
  Int64.shl BatchSizeInMB 20 <> 0 ->
  downloadAndWrite fuel url w t = (Some (Returned None), t ++ [EvHead url]).
Proof.
  intros Hprobe Hle Hb.
  rewrite (downloadAndWrite_probed url w fuel t contentLen Hprobe). cbn zeta.
  destruct (Z.eqb_spec (Int64.shl BatchSizeInMB 20) 0); [contradiction|].
  apply downloadLoop_exit. lia.
Qed.

(** An empty file on the server of static files. *)
Lemma empty_resource_witness :
  @downloadAndWrite (Server.static [(Sample.f1, [])]) Sample.cfg
    0 Sample.f1 okWriter []
  = (Some (Returned None), [EvHead Sample.f1]).
Proof.
  apply (@empty_resource (Server.static [(Sample.f1, [])]) Sample.cfg
           Sample.f1 okWriter 0 [] 0);
    [reflexivity | lia | vm_compute; discriminate].
Defined.

(* ================================================================== *)
(** ** The bound of the chunk plan is needed *)

Section PlanOverflow.

Variables contentLen batchSize : Z.
Hypothesis len_range : 0 <= contentLen <= Int64.max_int.
Hypothesis batch_range : 0 < batchSize <= Int64.max_int.
Hypothesis overflow : Int64.max_int < ceil_div contentLen batchSize * batchSize.

Lemma overflow_breaks_plan (m : nat) :
  forall (k : Z) (fuel : nat) (plan : list (Z * Z)),
    0 <= k -> k + Z.of_nat m = ceil_div contentLen batchSize - 1 ->
    chunkPlan fuel contentLen batchSize (k * batchSize) = Some plan ->
    ~ tiles (k * batchSize) contentLen plan.
Proof.
  pose proof (ceil_div_bounds contentLen batchSize ltac:(lia) ltac:(lia))
    as (H0 & H1 & H2).
  unfold Int64.max_int in *.
  induction m as [|m IH]; intros k fuel plan Hk Hc Hplan Htiles;
    (destruct fuel as [|fuel];
     [cbn [chunkPlan] in Hplan;
      destruct (Z.ltb_spec (k * batchSize) contentLen); [discriminate|nia]|]);
    cbn [chunkPlan] in Hplan;
    (destruct (Z.ltb_spec (k * batchSize) contentLen); [|nia]).
  - unfold chunkEnd, Int64.add in Hplan.
    rewrite Int64Facts.wrap_above in Hplan by (unfold Int64.max_int; nia).
    destruct (Z.gtb_spec (k * batchSize + batchSize - 2 ^ 64) contentLen); [nia|].
    destruct (chunkPlan fuel _ _ _); [|discriminate].
    injection Hplan as <-. cbn [tiles] in Htiles. nia.
  - rewrite chunkEnd_min in Hplan by (unfold Int64.max_int; nia).
    replace (Z.min (k * batchSize + batchSize) contentLen)
      with ((k + 1) * batchSize) in Hplan by nia.
    destruct (chunkPlan fuel _ _ _) as [plan'|] eqn:Hrest; [|discriminate].
    injection Hplan as <-. cbn [tiles] in Htiles.
    destruct Htiles as (_ & _ & _ & Htiles).
    apply (IH (k + 1) fuel plan'); trivial; lia.
Qed.

End PlanOverflow.

(** X3.  The bound of the chunk plan cannot be dropped: when
    [ceil (contentLen / batchSize) * batchSize] does not fit in an [int64],
    no run of the loop goes through ranges that tile [[0, contentLen)]. *)
Theorem chunk_plan_bound_needed (contentLen batchSize : Z)
    (fuel : nat) (plan : list (Z * Z)) :
  0 <= contentLen <= Int64.max_int ->
  0 < batchSize <= Int64.max_int ->
  Int64.max_int < ceil_div contentLen batchSize * batchSize ->
  chunkPlan fuel contentLen batchSize 0 = Some plan ->
  ~ tiles 0 contentLen plan.
Proof.
  intros Hlen Hbatch Hover Hplan.
  pose proof (ceil_div_bounds contentLen batchSize ltac:(lia) ltac:(lia))
    as (H0 & H1 & H2).
  change 0 with (0 * batchSize) in Hplan at 1. change 0 with (0 * batchSize) at 1.
  apply (overflow_breaks_plan contentLen batchSize Hlen Hbatch Hover
           (Z.to_nat (ceil_div contentLen batchSize - 1)) 0 fuel plan);
    trivial; unfold Int64.max_int in *; nia.
Qed.

(** Six units of [2^60] bytes in batches of five: the loop ends after
    eleven ranges, which do not tile the resource. *)
Lemma chunk_plan_bound_needed_witness :
  exists plan : list (Z * Z),
    chunkPlan 11 (6 * 2 ^ 60) (Int64.shl (5 * 2 ^ 40) 20) 0 = Some plan /\
    length plan = 11%nat /\
    ~ tiles 0 (6 * 2 ^ 60) plan.
Proof.
  destruct (chunkPlan 11 (6 * 2 ^ 60) (Int64.shl (5 * 2 ^ 40) 20) 0)
    as [plan|] eqn:Hplan; [|vm_compute in Hplan; discriminate].
  exists plan. split; [reflexivity|]. split.
  - vm_compute in Hplan. injection Hplan as <-. reflexivity.
  - apply (chunk_plan_bound_needed (6 * 2 ^ 60) (Int64.shl (5 * 2 ^ 40) 20) 11 plan);
      [vm_compute; split; congruence | vm_compute; split; congruence
      | vm_compute; reflexivity | exact Hplan].
Defined.

(* ================================================================== *)
(** ** The retry budget *)

Section RetryBudget.

Context {E : Env} {C : Config}.
Variables (url : string) (first last : Z).

Lemma attemptEvents_quiet :
  retry_indices (attemptEvents url first last) = [] /\
  sleeps_of (attemptEvents url first last) = [] /\
  Forall (loop_event url) (attemptEvents url first last).
Proof.
  unfold attemptEvents.
  destruct (env_NewRequest "GET" url); repeat split; repeat constructor.
Qed.

Lemma retry_indices_app (t1 t2 : Trace) :
  retry_indices (t1 ++ t2) = retry_indices t1 ++ retry_indices t2.
Proof. apply omap_app. Qed.

Lemma sleeps_of_app (t1 t2 : Trace) :
  sleeps_of (t1 ++ t2) = sleeps_of t1 ++ sleeps_of t2.
Proof. apply omap_app. Qed.

(** The loop turns [k] times on a failure, numbers the failures from [i]
    on, pauses one second after each, and either runs out of turns on a
    failure or stops at the first success. *)
Lemma retryLoop_counts (n : nat) :
  forall (i : Z) (cur : GoBytes * option error) (t : Trace),
  exists (tn : Trace) (k : nat),
    snd (retryLoop n i url first last cur t) = t ++ tn /\
    retry_indices tn = upFrom i k /\
    sleeps_of tn = repeat 1 k /\
    Forall (loop_event url) tn /\
    ((n = 0%nat /\ k = 0%nat /\ tn = [] /\
      fst (retryLoop n i url first last cur t) = cur) \/
     (n <> 0%nat /\ k = n /\ attempts_of tn = n /\
      exists err, fst (retryLoop n i url first last cur t) = (None, Some err)) \/
     (attempts_of tn = S k /\ (S k <= n)%nat /\
      exists bs, fst (retryLoop n i url first last cur t) = (Some bs, None))).
Proof.
  induction n as [|n IH]; intros i cur t.
  - exists [], 0%nat. rewrite app_nil_r. repeat split; auto.
  - destruct (snd (fst (downloadChunk url first last t))) as [e|] eqn:Hr.
    + destruct (downloadChunk_fails url first last t) as [err He];
        [unfold fetch_fails; congruence|].
      rewrite (retryLoop_fail_step url first last n i cur t None err He).
      set (d := attemptEvents url first last
                  ++ [EvStderr (Retrying i MaxRetry err); EvSleep 1]).
      destruct attemptEvents_quiet as (Hi0 & Hs0 & He0).
      assert (Hd : retry_indices d = [i] /\ sleeps_of d = [1] /\
                   attempts_of d = 1%nat /\ Forall (loop_event url) d).
      { subst d. rewrite retry_indices_app, sleeps_of_app, attempts_of_app,
          Hi0, Hs0, attemptEvents_attempts.
        repeat split. apply Forall_app. split; [exact He0|]. repeat constructor. }
      destruct Hd as (Hdi & Hds & Hda & Hde).
      destruct (IH (i + 1) (None, Some err) (t ++ d))
        as (tn & k & Hsnd & Hidx & Hsl & Hev & Hcase).
      exists (d ++ tn), (S k).
      rewrite app_assoc, retry_indices_app, sleeps_of_app, Hdi, Hds, Hidx, Hsl,
        attempts_of_app, Hda.
      split; [exact Hsnd|]. split; [reflexivity|]. split; [reflexivity|].
      split; [apply Forall_app; now split|].
      destruct Hcase as [(-> & -> & -> & Hfst)|[(Hn & -> & Ha & err' & Hfst)
                                              |(Ha & Hle & bs & Hfst)]].
      * right; left. rewrite Hfst. repeat split; eauto.
      * right; left. rewrite Ha. repeat split; eauto.
      * right; right. rewrite Ha. repeat split; eauto. lia.
    + rewrite retryLoop_ok_step by exact Hr.
      destruct (downloadChunk_ok url first last t Hr) as [bs Hbs].
      destruct attemptEvents_quiet as (Hi0 & Hs0 & He0).
      exists (attemptEvents url first last), 0%nat.
      split; [apply downloadChunk_trace|].
      split; [exact Hi0|]. split; [exact Hs0|]. split; [exact He0|].
      right; right. rewrite attemptEvents_attempts. repeat split; eauto. lia.
Qed.

End RetryBudget.

(** X4.  In every environment [downloadChunkWithRetry] calls [downloadChunk] at
    most [MaxRetry] times; it returns an error only after exactly
    [MaxRetry] failed calls; every failed call, the last one included, is
    followed by one "retrying" line, numbered from 0, and a pause of one
    second; and a success is the last call made. *)
Theorem retry_budget_respected {E : Env} {C : Config}
    (url : string) (first last : Z) (t : Trace) :
  exists (tn : Trace) (k : nat),
    snd (downloadChunkWithRetry url first last t) = t ++ tn /\
    retry_indices tn = upFrom 0 k /\
    sleeps_of tn = repeat 1 k /\
    Z.of_nat (attempts_of tn) <= Z.max 0 MaxRetry /\
    (forall err : error,
        snd (fst (downloadChunkWithRetry url first last t)) = Some err ->
        Z.of_nat (attempts_of tn) = MaxRetry /\ attempts_of tn = k /\
        fst (fst (downloadChunkWithRetry url first last t)) = None) /\
    (snd (fst (downloadChunkWithRetry url first last t)) = None ->
     0 < MaxRetry ->
     attempts_of tn = S k /\
     exists bs, fst (fst (downloadChunkWithRetry url first last t)) = Some bs).
Proof.
  unfold downloadChunkWithRetry.
  destruct (retryLoop_counts url first last (Z.to_nat MaxRetry) 0 (None, None) t)
    as (tn & k & Hsnd & Hidx & Hsl & _ & Hcase).
  exists tn, k. split; [exact Hsnd|]. split; [exact Hidx|]. split; [exact Hsl|].
  destruct Hcase as [(Hn & -> & -> & Hfst)|[(Hn & -> & Ha & err' & Hfst)
                                           |(Ha & Hle & bs & Hfst)]];
    rewrite Hfst; cbn [fst snd].
  - split; [cbn; lia|]. split; [discriminate|]. intros _ Hpos. lia.
  - rewrite Ha. split; [lia|]. split; [|discriminate].
    intros err _. repeat split; lia.
  - rewrite Ha. split; [lia|]. split; [discriminate|]. intros _ _. eauto.
Qed.

(** Two refused connections and a success: three calls, two lines
    numbered 0 and 1, two pauses. *)
Lemma retry_budget_respected_witness :
  exists tn : Trace,
    snd (@downloadChunkWithRetry (Server.flaky 2 Sample.files) Sample.cfg
           Sample.f1 0 4 []) = tn /\
    retry_indices tn = [0; 1] /\ sleeps_of tn = [1; 1] /\ attempts_of tn = 3%nat.
Proof.
  destruct (@retry_budget_respected (Server.flaky 2 Sample.files) Sample.cfg
              Sample.f1 0 4 []) as (tn & k & Hsnd & Hidx & Hsl & _ & _ & Hok).
  destruct Hok as (Ha & _); [vm_compute; reflexivity | cbn; lia |].
  exists tn. split; [exact Hsnd|].
  assert (Hk : attempts_of tn = 3%nat).
  { cbn [app] in Hsnd. rewrite <- Hsnd. vm_compute. reflexivity. }
  assert (k = 2%nat) as -> by lia.
  repeat split; assumption.
Defined.

(* ================================================================== *)
(** ** The calls of one download *)

Section Shape.

Context {E : Env} {C : Config}.
Variables (url : string) (w : Writer).

Lemma loop_event_no_head (tn : Trace) :
  Forall (loop_event url) tn -> heads_of tn = [].
Proof.
  induction 1 as [|e tn He _ IH]; [reflexivity|].
  destruct e as [| | | | [] | |]; cbn in He |- *; try contradiction; exact IH.
Qed.

Variables contentLen batchSize numChunks : Z.

Lemma downloadLoop_shape (fuel : nat) :
  forall (chunk offset : Z) (t : Trace),
  exists tn,
    snd (downloadLoop fuel url w contentLen batchSize numChunks chunk offset t)
    = t ++ tn /\
    Forall (loop_event url) tn.
Proof.
  induction fuel as [|fuel IH]; intros chunk offset t.
  - exists []. split; [|constructor]. cbn [downloadLoop].
    destruct (offset <? contentLen); cbn; now rewrite app_nil_r.
  - destruct (Z_lt_le_dec offset contentLen) as [Hlt|Hge].
    2:{ exists []. rewrite downloadLoop_exit by exact Hge.
        split; [cbn; now rewrite app_nil_r | constructor]. }
    rewrite downloadLoop_step by exact Hlt. cbn zeta.
    set (offsetTo := chunkEnd contentLen batchSize offset).
    set (line := EvStderr (Downloading chunk numChunks offset offsetTo url)).
    destruct (retryLoop_counts url offset (Int64.sub offsetTo 1)
                (Z.to_nat MaxRetry) 0 (None, None) (t ++ [line]))
      as (fn & k & Hfn & _ & _ & Hev & _).
    fold (downloadChunkWithRetry url offset (Int64.sub offsetTo 1) (t ++ [line])) in Hfn.
    destruct (downloadChunkWithRetry url offset (Int64.sub offsetTo 1) (t ++ [line]))
      as [[p err] t2]. cbn [fst snd] in *. subst t2.
    assert (Hline : loop_event url line) by reflexivity.
    destruct err as [err|].
    { exists (line :: fn). split; [now rewrite <- app_assoc|]. now constructor. }
    destruct (snd (Write w _ p)) as [err|].
    { exists (line :: fn ++ [EvWrite p]). split; [now rewrite <- !app_assoc|].
      constructor; [exact Hline|]. apply Forall_app. split; [exact Hev|].
      repeat constructor. }
    destruct (IH (Int64.add chunk 1) offsetTo (((t ++ [line]) ++ fn) ++ [EvWrite p]))
      as (tn & Htn & Hevn).
    exists (line :: fn ++ EvWrite p :: tn).
    split; [rewrite Htn, <- !app_assoc; reflexivity|].
    constructor; [exact Hline|]. apply Forall_app. split; [exact Hev|].
    constructor; [exact I|exact Hevn].
Qed.

End Shape.

Section ShapeOfDownload.

Context {E : Env} {C : Config}.

Lemma downloadAndWrite_shape (url : string) (w : Writer) (fuel : nat) (t : Trace) :
  exists rest,
    snd (downloadAndWrite fuel url w t) = t ++ EvHead url :: rest /\
    Forall (loop_event url) rest.
Proof.
  destruct (fst (checkHeaders url t)) as [n [err|]] eqn:Hprobe.
  - rewrite (downloadAndWrite_probe_failed url w fuel t n err Hprobe).
    exists []. split; [reflexivity|constructor].
  - rewrite (downloadAndWrite_probed url w fuel t n Hprobe). cbn zeta.
    destruct (_ =? 0); [exists []; split; [reflexivity|constructor]|].
    destruct (downloadLoop_shape url w n (Int64.shl BatchSizeInMB 20)
                (numChunksOf n (Int64.shl BatchSizeInMB 20)) fuel 1 0
                (t ++ [EvHead url])) as (tn & Htn & Hev).
    exists tn. split; [now rewrite Htn, <- app_assoc|exact Hev].
Qed.

End ShapeOfDownload.

(** X5.  Every call [downloadAndWrite] makes is for its resource: one HEAD
    request first, never a second one, and then only GET requests of the
    same URL, writes, "downloading" and "retrying" lines and pauses of one
    second.  When the probe fails, the HEAD request is the only call. *)
Theorem probe_once {E : Env} {C : Config}
    (url : string) (w : Writer) (fuel : nat) (t : Trace) :
  exists rest : Trace,
    snd (downloadAndWrite fuel url w t) = t ++ EvHead url :: rest /\
    Forall (loop_event url) rest /\
    heads_of (EvHead url :: rest) = [url] /\
    (forall (n : Z) (err : error),
        fst (checkHeaders url t) = (n, Some err) ->
        rest = [] /\ fst (downloadAndWrite fuel url w t) = Some (Returned (Some err))).
Proof.
  destruct (downloadAndWrite_shape url w fuel t) as (rest & Hsnd & Hev).
  exists rest. split; [exact Hsnd|]. split; [exact Hev|]. split.
  - cbn. fold (heads_of rest). now rewrite (loop_event_no_head url rest Hev).
  - intros n err Hprobe.
    rewrite (downloadAndWrite_probe_failed url w fuel t n err Hprobe) in *.
    cbn [fst snd] in *. split; [|reflexivity].
    apply app_inv_head in Hsnd. now injection Hsnd as <-.
Qed.

(** A host that refuses the HEAD request. *)
Lemma probe_once_witness :
  @downloadAndWrite Server.down Sample.cfg 5 Sample.f1 okWriter []
  = (Some (Returned (Some (ErrNet "connection refused"))), [EvHead Sample.f1]).
Proof.
  destruct (@probe_once Server.down Sample.cfg Sample.f1 okWriter 5 [])
    as (rest & Hsnd & _ & _ & Hfail).
  destruct (Hfail 0 (ErrNet "connection refused") eq_refl) as [-> Hfst].
  destruct (@downloadAndWrite Server.down Sample.cfg 5 Sample.f1 okWriter [])
    as [r t']. cbn [fst snd app] in *. now subst.
Defined.

(* ================================================================== *)
(** ** A write that fails *)

Section WriteFailure.

Context {E : Env} {C : Config}.
Variables (url : string) (w : Writer).

Lemma writes_of_split (t1 rest : Trace) (p : GoBytes) :
  writes_of (t1 ++ EvWrite p :: rest) <> [].
Proof.
  rewrite writes_of_app. cbn. fold (writes_of rest).
  destruct (writes_of t1); discriminate.
Qed.

(** Where the first write of a trace is. *)
Lemma first_write_split (l1 : Trace) :
  forall (l2 t1 rest : Trace) (p0 p : GoBytes),
    writes_of l1 = [] ->
    l1 ++ EvWrite p0 :: l2 = t1 ++ EvWrite p :: rest ->
    (t1 = l1 /\ p = p0 /\ rest = l2) \/
    (exists t1', t1 = l1 ++ EvWrite p0 :: t1' /\ l2 = t1' ++ EvWrite p :: rest).
Proof.
  induction l1 as [|e l1 IH]; intros l2 t1 rest p0 p Hw Heq.
  - destruct t1 as [|e' t1]; cbn [app] in Heq.
    + injection Heq as <- <-. now left.
    + injection Heq as <- ->. right. now exists t1.
  - assert (He : writes_of l1 = [] /\ forall q, e <> EvWrite q).
    { destruct e; cbn in Hw; try discriminate; (split; [exact Hw|discriminate]). }
    destruct He as [Hw1 He].
    destruct t1 as [|e' t1]; cbn [app] in Heq.
    + injection Heq as -> _. now destruct (He p).
    + injection Heq as <- Heq.
      destruct (IH l2 t1 rest p0 p Hw1 Heq) as [(-> & -> & ->)|(t1' & -> & ->)].
      * now left.
      * right. now exists t1'.
Qed.

Variables contentLen batchSize numChunks : Z.

Lemma write_failure_loop (fuel : nat) :
  forall (chunk offset : Z) (t tn : Trace) (r : option Outcome),
    downloadLoop fuel url w contentLen batchSize numChunks chunk offset t
    = (r, t ++ tn) ->
    forall (t1 rest : Trace) (p : GoBytes) (e : error),
      tn = t1 ++ EvWrite p :: rest ->
      snd (Write w (t ++ t1) p) = Some e ->
      rest = [] /\ r = Some (Returned (Some e)).
Proof.
  induction fuel as [|fuel IH]; intros chunk offset t tn r Hrun t1 rest p e Htn Hw.
  - cbn [downloadLoop] in Hrun.
    assert (tn = []).
    { destruct (offset <? contentLen); injection Hrun as _ Ht;
        rewrite <- (app_nil_r t) in Ht at 1; now apply app_inv_head in Ht. }
    subst tn. now destruct t1.
  - destruct (Z_lt_le_dec offset contentLen) as [Hlt|Hge].
    2:{ rewrite downloadLoop_exit in Hrun by exact Hge. injection Hrun as _ Ht.
        rewrite <- (app_nil_r t) in Ht at 1. apply app_inv_head in Ht.
        subst tn. now destruct t1. }
    rewrite downloadLoop_step in Hrun by exact Hlt. cbn zeta in Hrun.
    set (offsetTo := chunkEnd contentLen batchSize offset) in *.
    set (line := EvStderr (Downloading chunk numChunks offset offsetTo url)) in *.
    destruct (downloadChunkWithRetry_trace url offset (Int64.sub offsetTo 1) (t ++ [line]))
      as (fn & Hfn & Hsilent).
    destruct (fetch_events_silent _ _ fn Hsilent) as (Hw0 & _ & _ & _).
    assert (Hl1 : writes_of (line :: fn) = []) by exact Hw0.
    destruct (downloadChunkWithRetry url offset (Int64.sub offsetTo 1) (t ++ [line]))
      as [[p0 err] t2]. cbn [fst snd] in *. subst t2.
    destruct err as [err|].
    { injection Hrun as _ Ht. rewrite <- app_assoc in Ht. apply app_inv_head in Ht.
      cbn [app] in Ht. rewrite <- Ht in Htn. exfalso.
      apply (writes_of_split t1 rest p). now rewrite <- Htn. }
    destruct (snd (Write w ((t ++ [line]) ++ fn) p0)) as [e0|] eqn:Hw0'.
    { injection Hrun as <- Ht. rewrite <- !app_assoc in Ht. apply app_inv_head in Ht.
      cbn [app] in Ht. rewrite <- Ht in Htn.
      change (line :: fn ++ [EvWrite p0]) with ((line :: fn) ++ EvWrite p0 :: []) in Htn.
      destruct (first_write_split _ _ _ _ _ _ Hl1 Htn) as [(-> & -> & ->)|(t1' & _ & Hnil)].
      - split; [reflexivity|].
        rewrite <- app_assoc in Hw0'. cbn [app] in Hw0', Hw. congruence.
      - now destruct t1'. }
    remember (((t ++ [line]) ++ fn) ++ [EvWrite p0]) as t3 eqn:Et3.
    destruct (downloadLoop_shape url w contentLen batchSize numChunks fuel
                (Int64.add chunk 1) offsetTo t3) as (tn3 & Htn3 & _).
    destruct (downloadLoop fuel url w contentLen batchSize numChunks
                (Int64.add chunk 1) offsetTo t3) as [r3 t3'] eqn:Hrec.
    cbn [snd] in Htn3. subst t3'. injection Hrun as <- Ht.
    assert (Htn' : tn = (line :: fn) ++ EvWrite p0 :: tn3).
    { subst t3. rewrite <- !app_assoc in Ht. apply app_inv_head in Ht.
      cbn [app] in Ht. now rewrite <- Ht. }
    rewrite Htn' in Htn.
    destruct (first_write_split _ _ _ _ _ _ Hl1 Htn) as [(-> & -> & ->)|(t1' & -> & ->)].
    + rewrite <- app_assoc in Hw0'. cbn [app] in Hw0', Hw. congruence.
    + apply (IH _ _ _ _ _ Hrec t1' rest p e eq_refl).
      subst t3. rewrite <- Hw. f_equal. rewrite <- !app_assoc. reflexivity.
Qed.

End WriteFailure.

(** X6.  A write that fails ends the download: it is the last call of
    [downloadAndWrite], which returns the error of the write.  No chunk is
    fetched and nothing is written after it, and the write is not tried
    again. *)
Theorem write_failure_is_final {E : Env} {C : Config}
    (url : string) (w : Writer) (fuel : nat) (t t1 rest : Trace)
    (r : option Outcome) (p : GoBytes) (e : error) :
  downloadAndWrite fuel url w t = (r, t ++ t1 ++ EvWrite p :: rest) ->
  snd (Write w (t ++ t1) p) = Some e ->
  rest = [] /\ r = Some (Returned (Some e)).
Proof.
  intros Hrun Hw.
  destruct (fst (checkHeaders url t)) as [n [err|]] eqn:Hprobe.
  - rewrite (downloadAndWrite_probe_failed url w fuel t n err Hprobe) in Hrun.
    injection Hrun as _ Ht. apply app_inv_head in Ht.
    destruct t1 as [|? [|? ?]]; discriminate.
  - rewrite (downloadAndWrite_probed url w fuel t n Hprobe) in Hrun. cbn zeta in Hrun.
    destruct (_ =? 0).
    { injection Hrun as _ Ht. apply app_inv_head in Ht.
      destruct t1 as [|? [|? ?]]; discriminate. }
    destruct (downloadLoop_shape url w n (Int64.shl BatchSizeInMB 20)
                (numChunksOf n (Int64.shl BatchSizeInMB 20)) fuel 1 0
                (t ++ [EvHead url])) as (tn & Htn & _).
    rewrite Hrun in Htn. cbn [snd] in Htn.
    rewrite <- app_assoc in Htn. apply app_inv_head in Htn. cbn [app] in Htn.
    destruct t1 as [|e1 t1]; [discriminate|].
    cbn [app] in Htn. injection Htn as -> Htn.
    apply (write_failure_loop url w n (Int64.shl BatchSizeInMB 20)
             (numChunksOf n (Int64.shl BatchSizeInMB 20)) fuel 1 0
             (t ++ [EvHead url]) tn r) with (t1 := t1) (p := p).
    + rewrite Hrun. f_equal. rewrite <- app_assoc. cbn [app]. now rewrite Htn.
    + symmetry. exact Htn.
    + rewrite <- Hw. f_equal. now rewrite <- app_assoc.
Qed.

(** The first file into a closed pipe: the first write is the last call. *)
Lemma write_failure_is_final_witness :
  fst (@downloadAndWrite (Server.static Sample.files) Sample.cfg
         5 Sample.f1 brokenWriter [])
  = Some (Returned (Some (ErrSink "broken pipe"))) /\
  writes_of (snd (@downloadAndWrite (Server.static Sample.files) Sample.cfg
                    5 Sample.f1 brokenWriter []))
  = [Some Sample.body1].
Proof.
  pose (run := @downloadAndWrite (Server.static Sample.files) Sample.cfg
                 5 Sample.f1 brokenWriter []).
  assert (Hrun : run = (fst run, [] ++ take 4 (snd run)
                                   ++ EvWrite (Some Sample.body1) :: []))
    by (vm_compute; reflexivity).
  destruct (@write_failure_is_final (Server.static Sample.files) Sample.cfg
              Sample.f1 brokenWriter 5 [] (take 4 (snd run)) [] (fst run)
              (Some Sample.body1) (ErrSink "broken pipe") Hrun eq_refl)
    as [_ Hr].
  split; [exact Hr|]. vm_compute. reflexivity.
Defined.

(* ================================================================== *)
(** ** What the sink holds when a run stops *)

Section SinkPrefix.

Context {E : Env} {C : Config}.
Variables (url : string) (w : Writer) (body : list byte).
Hypothesis Hserved : served url body.

Local Abbreviation size := (Z.of_nat (length body)).
Variables batchSize numChunks : Z.
Hypothesis size_in_range : Int64.in_range size.


End SinkPrefix.

Section SinkPrefixFiles.

Context {E : Env} {C : Config}.




End SinkPrefixFiles.




(* ================================================================== *)
(** ** The first failure ends the run *)

Section FailFast.

Context {E : Env} {C : Config}.

Lemma heads_of_app (t1 t2 : Trace) :
  heads_of (t1 ++ t2) = heads_of t1 ++ heads_of t2.
Proof. apply omap_app. Qed.

Lemma heads_of_download (url : string) (w : Writer) (fuel : nat) (t : Trace) :
  exists seg,
    snd (downloadAndWrite fuel url w t) = t ++ seg /\ heads_of seg = [url].
Proof.
  destruct (downloadAndWrite_shape url w fuel t) as (rest & Hsnd & Hev).
  exists (EvHead url :: rest). split; [exact Hsnd|].
  cbn. fold (heads_of rest). now rewrite (loop_event_no_head url rest Hev).
Qed.

Lemma fail_fast_files (fuel : nat) (files : list string) :
  forall (t t' : Trace) (r : option Exit),
    downloadFiles fuel files t = (r, t') ->
    exists tn,
      t' = t ++ tn /\
      (exists j : nat, heads_of tn = take j files) /\
      (r = Some ExitCompleted -> heads_of tn = files) /\
      (forall e : error,
          r = Some (ExitFatal e) ->
          exists (pre : list string) (file : string) (post : list string)
                 (tpre tfail : Trace),
            files = pre ++ file :: post /\
            tn = tpre ++ tfail ++ [EvFatal e] /\
            heads_of tn = pre ++ [file] /\
            downloadAndWrite fuel file os_Stdout (t ++ tpre)
            = (Some (Returned (Some e)), (t ++ tpre) ++ tfail)).
Proof.
  induction files as [|file files IH]; intros t t' r Hrun.
  - injection Hrun as <- <-. exists [EvStderr Completed].
    split; [reflexivity|]. split; [now exists 0%nat|]. split; [reflexivity|].
    discriminate.
  - cbn [downloadFiles] in Hrun. unfold bind at 1 in Hrun.
    destruct (heads_of_download file os_Stdout fuel t) as (seg & Hseg & Hheads).
    destruct (downloadAndWrite fuel file os_Stdout t) as [[[[err|]|msg]|] t1] eqn:Hone;
      cbn [snd] in Hseg; subst t1.
    + unfold bind, emit, ret in Hrun. injection Hrun as <- <-.
      exists (seg ++ [EvFatal err]). split; [now rewrite <- app_assoc|].
      assert (Hh : heads_of (seg ++ [EvFatal err]) = [file]).
      { rewrite heads_of_app, Hheads. reflexivity. }
      rewrite Hh. split; [now exists 1%nat|]. split; [discriminate|].
      intros e [= <-]. exists [], file, files, [], seg.
      rewrite app_nil_r. repeat split; auto.
    + apply IH in Hrun. destruct Hrun as (tn & -> & [j Hj] & Hdone & Hfatal).
      exists (seg ++ tn). split; [now rewrite <- app_assoc|].
      rewrite heads_of_app, Hheads. cbn [app].
      split; [exists (S j); cbn [take]; now rewrite Hj|].
      split; [intros Hr; now rewrite (Hdone Hr)|].
      intros e Hr.
      destruct (Hfatal e Hr) as (pre & f & post & tpre & tfail & -> & -> & Hh & Hf).
      exists (file :: pre), f, post, (seg ++ tpre), tfail.
      split; [reflexivity|]. split; [now rewrite <- app_assoc|].
      split; [now rewrite Hh|]. now rewrite app_assoc.
    + injection Hrun as <- <-. exists seg. split; [reflexivity|]. rewrite Hheads.
      split; [now exists 1%nat|]. split; discriminate.
    + injection Hrun as <- <-. exists seg. split; [reflexivity|]. rewrite Hheads.
      split; [now exists 1%nat|]. split; discriminate.
Qed.

End FailFast.

(** X8.  The loop of [main] probes the resources in list order, each once.  A
    completed run has probed them all.  A run that ends with a fatal error
    ends with [log.Fatal] of the error that the download of one resource
    returned, right after that download: the resources listed after it are
    never probed. *)
Theorem fail_fast {E : Env} {C : Config}
    (fuel : nat) (files : list string) (t t' : Trace) (r : option Exit) :
  downloadFiles fuel files t = (r, t') ->
  exists tn : Trace,
    t' = t ++ tn /\
    (exists j : nat, heads_of tn = take j files) /\
    (r = Some ExitCompleted -> heads_of tn = files) /\
    (forall e : error,
        r = Some (ExitFatal e) ->
        exists (pre : list string) (file : string) (post : list string)
               (tpre tfail : Trace),
          files = pre ++ file :: post /\
          tn = tpre ++ tfail ++ [EvFatal e] /\
          heads_of tn = pre ++ [file] /\
          downloadAndWrite fuel file os_Stdout (t ++ tpre)
          = (Some (Returned (Some e)), (t ++ tpre) ++ tfail)).
Proof. apply fail_fast_files. Qed.

(** Three resources, of which the server lacks the second: the first is
    written, the second ends the run, the third is never probed. *)
Lemma fail_fast_witness :
  exists tn : Trace,
    @downloadFiles (Server.static [(Sample.f1, Sample.body1)]) Sample.cfg
      5 [Sample.f1; "http://a/gone"%string; Sample.f2] []
    = (Some (ExitFatal (ErrNet "no such host")), tn) /\
    heads_of tn = [Sample.f1; "http://a/gone"%string] /\
    sink_of tn = Sample.body1.
Proof.
  destruct (@downloadFiles (Server.static [(Sample.f1, Sample.body1)]) Sample.cfg
              5 [Sample.f1; "http://a/gone"%string; Sample.f2] []) as [r t'] eqn:Hrun.
  destruct (@fail_fast (Server.static [(Sample.f1, Sample.body1)]) Sample.cfg
              5 [Sample.f1; "http://a/gone"%string; Sample.f2] [] t' r Hrun)
    as (tn & Ht & _ & _ & _).
  cbn [app] in Ht. subst tn. exists t'.
  assert (Hr : r = Some (ExitFatal (ErrNet "no such host"))).
  { apply (f_equal fst) in Hrun. vm_compute in Hrun. now subst r. }
  split; [now rewrite Hr|].
  apply (f_equal snd) in Hrun. cbn [snd] in Hrun. rewrite <- Hrun.
  split; vm_compute; reflexivity.
Defined.

(* ================================================================== *)
(** ** The progress lines *)

Section ProgressLines.

Context {E : Env} {C : Config}.
Variables (url : string) (w : Writer).
Variables contentLen batchSize : Z.
Hypothesis batch_pos : 0 < batchSize.
Hypothesis len_nonneg : 0 <= contentLen.

Local Abbreviation count := (ceil_div contentLen batchSize).

Hypothesis no_overflow : count * batchSize <= Int64.max_int.

Lemma progress_of_app (t1 t2 : Trace) :
  progress_of (t1 ++ t2) = progress_of t1 ++ progress_of t2.
Proof. apply omap_app. Qed.

Lemma fetch_events_no_progress (req : Request) (tn : Trace) :
  Forall (fetch_event req url) tn -> progress_of tn = [].
Proof.
  induction 1 as [|e tn He _ IH]; [reflexivity|].
  destruct e as [| | | | [] | |]; cbn in He |- *; try contradiction; exact IH.
Qed.

Lemma downloadLoop_progress (numChunks : Z) (fuel : nat) :
  forall (k : Z) (t : Trace),
    0 <= k <= count ->
    exists (tn : Trace) (j : nat),
      snd (downloadLoop fuel url w contentLen batchSize numChunks
             (Int64.wrap (k + 1)) (Z.min (k * batchSize) contentLen) t) = t ++ tn /\
      Z.of_nat j <= count - k /\
      progress_of tn = map (fun i => (i, numChunks)) (upFrom (k + 1) j) /\
      (fst (downloadLoop fuel url w contentLen batchSize numChunks
              (Int64.wrap (k + 1)) (Z.min (k * batchSize) contentLen) t)
       = Some (Returned None) -> Z.of_nat j = count - k).
Proof.
  pose proof (ceil_div_bounds contentLen batchSize batch_pos len_nonneg)
    as (H0 & H1 & H2).
  assert (Hdone : forall k, 0 <= k <= count ->
                    contentLen <= Z.min (k * batchSize) contentLen -> k = count).
  { intros k Hk Hge. nia. }
  induction fuel as [|fuel IH]; intros k t Hk.
  - exists [], 0%nat. rewrite app_nil_r. cbn [downloadLoop].
    destruct (Z.ltb_spec (Z.min (k * batchSize) contentLen) contentLen) as [Hlt|Hge].
    + repeat split; [lia | discriminate].
    + rewrite (Hdone k Hk Hge). repeat split; lia.
  - destruct (Z_lt_le_dec (Z.min (k * batchSize) contentLen) contentLen) as [Hlt|Hge].
    2:{ exists [], 0%nat. rewrite downloadLoop_exit by exact Hge.
        rewrite app_nil_r, (Hdone k Hk Hge). repeat split; lia. }
    assert (Hkb : k * batchSize < contentLen) by lia.
    assert (Hkc : k < count) by nia.
    rewrite downloadLoop_step by exact Hlt. cbn zeta.
    replace (Z.min (k * batchSize) contentLen) with (k * batchSize) by lia.
    rewrite (chunkEnd_min contentLen batchSize) by nia.
    replace (k * batchSize + batchSize) with ((k + 1) * batchSize) by lia.
    rewrite (Int64Facts.wrap_id (k + 1))
      by (unfold Int64.in_range, Int64.min_int, Int64.max_int in *; nia).
    set (line := EvStderr (Downloading (k + 1) numChunks (k * batchSize)
                          (Z.min ((k + 1) * batchSize) contentLen) url)).
    destruct (downloadChunkWithRetry_trace url (k * batchSize)
                (Int64.sub (Z.min ((k + 1) * batchSize) contentLen) 1)
                (t ++ [line])) as (fn & Hfn & Hev).
    apply fetch_events_no_progress in Hev.
    destruct (downloadChunkWithRetry url (k * batchSize)
                (Int64.sub (Z.min ((k + 1) * batchSize) contentLen) 1)
                (t ++ [line])) as [[p err] t2]. cbn [fst snd] in *. subst t2.
    assert (Hone : forall rest, progress_of rest = [] ->
                     progress_of (line :: fn ++ rest)
                     = map (fun i => (i, numChunks)) (upFrom (k + 1) 1)).
    { intros rest Hrest. change (line :: fn ++ rest) with ([line] ++ fn ++ rest).
      now rewrite !progress_of_app, Hev, Hrest. }
    destruct err as [err|].
    { exists (line :: fn), 1%nat. rewrite <- app_assoc.
      split; [reflexivity|]. split; [lia|].
      split; [|discriminate]. rewrite <- (app_nil_r fn). now apply Hone. }
    destruct (snd (Write w _ p)) as [err|].
    { exists (line :: fn ++ [EvWrite p]), 1%nat. rewrite <- !app_assoc.
      split; [reflexivity|]. split; [lia|].
      split; [|discriminate]. now apply Hone. }
    unfold Int64.add.
    destruct (IH (k + 1) (((t ++ [line]) ++ fn) ++ [EvWrite p]) ltac:(lia))
      as (tn & j & Htn & Hj & Hprog & Hfin).
    exists (line :: fn ++ EvWrite p :: tn), (S j).
    split; [rewrite Htn, <- !app_assoc; reflexivity|].
    split; [lia|]. split.
    + change (line :: fn ++ EvWrite p :: tn) with ([line] ++ fn ++ [EvWrite p] ++ tn).
      rewrite !progress_of_app, Hev, Hprog. reflexivity.
    + intros Hr. apply Hfin in Hr. lia.
Qed.

End ProgressLines.

(** X9.  For a resource of [contentLen >= 0] bytes and a batch size that the
    chunk arithmetic does not overflow, the "downloading" lines of a
    download are numbered 1, 2, 3, ... and every one announces the same
    total, [ceil (contentLen / batchSize)].  The numbering never goes past
    the total, and a download that returns no error has printed exactly
    that many lines. *)
Theorem progress_lines_numbered {E : Env} {C : Config}
    (url : string) (w : Writer) (fuel : nat) (t : Trace) (contentLen : Z) :
  fst (checkHeaders url t) = (contentLen, None) ->
  0 <= contentLen ->
  0 < Int64.shl BatchSizeInMB 20 ->
  ceil_div contentLen (Int64.shl BatchSizeInMB 20) * Int64.shl BatchSizeInMB 20
  <= Int64.max_int ->
  let total := ceil_div contentLen (Int64.shl BatchSizeInMB 20) in
  exists (tn : Trace) (j : nat),
    snd (downloadAndWrite fuel url w t) = t ++ EvHead url :: tn /\
    Z.of_nat j <= total /\
    progress_of tn = map (fun i => (i, total)) (upFrom 1 j) /\
    (fst (downloadAndWrite fuel url w t) = Some (Returned None) ->
     Z.of_nat j = total).
Proof.
  intros Hprobe Hlen Hb Hfit total.
  rewrite (downloadAndWrite_probed url w fuel t contentLen Hprobe). cbn zeta.
  destruct (Z.eqb_spec (Int64.shl BatchSizeInMB 20) 0) as [Hz|_]; [lia|].
  rewrite (numChunksOf_ceil _ _ Hb Hlen Hfit). fold total.
  pose proof (ceil_div_bounds contentLen _ Hb Hlen) as (H0 & _).
  destruct (downloadLoop_progress url w contentLen (Int64.shl BatchSizeInMB 20)
              Hb Hlen Hfit total fuel 0 (t ++ [EvHead url]) ltac:(fold total; lia))
    as (tn & j & Htn & Hj & Hprog & Hfin).
  change (Int64.wrap (0 + 1)) with 1 in *.
  change (0 * Int64.shl BatchSizeInMB 20) with 0 in *.
  rewrite Z.min_l in * by exact Hlen.
  exists tn, j. rewrite Htn, <- app_assoc.
  fold total in Hj, Hfin. rewrite Z.sub_0_r in *.
  repeat split; assumption.
Qed.

(** The twelve bytes of the first file with batches of 5 MiB: one line,
    numbered 1 of 1. *)
Lemma progress_lines_numbered_witness :
  exists tn : Trace,
    snd (@downloadAndWrite (Server.static Sample.files) (mkConfig 3 5)
           5 Sample.f1 okWriter []) = EvHead Sample.f1 :: tn /\
    progress_of tn = [(1, 1)].
Proof.
  destruct (@progress_lines_numbered (Server.static Sample.files) (mkConfig 3 5)
              Sample.f1 okWriter 5 [] 12)
    as (tn & j & Htn & _ & Hprog & Hfin);
    [reflexivity | lia | reflexivity | vm_compute; discriminate |].
  exists tn. split; [exact Htn|].
  rewrite Hprog. rewrite <- (Nat2Z.id j), Hfin; [reflexivity|].
  vm_compute. reflexivity.
Defined.

(* ================================================================== *)
(** ** A negative batch size *)

Section NegativeBatch.

Context {E : Env} {C : Config}.
Variables (url : string) (w : Writer).
Variables contentLen batchSize numChunks : Z.
Hypothesis len_pos : 0 < contentLen.
Hypothesis batch_neg : batchSize < 0.

Lemma chunkEnd_backwards (k : Z) :
  0 <= k -> (k + 1) * - batchSize <= 2 ^ 63 ->
  chunkEnd contentLen batchSize (k * batchSize) = (k + 1) * batchSize.
Proof.
  intros Hk Hb. unfold chunkEnd, Int64.add.
  replace (k * batchSize + batchSize) with ((k + 1) * batchSize) by lia.
  rewrite Int64Facts.wrap_id
    by (unfold Int64.in_range, Int64.min_int, Int64.max_int; nia).
  destruct (Z.gtb_spec ((k + 1) * batchSize) contentLen); [nia|reflexivity].
Qed.

Lemma downloadLoop_backwards (fuel : nat) :
  forall (k chunk : Z) (t : Trace),
    0 <= k -> (k + Z.of_nat fuel) * - batchSize <= 2 ^ 63 ->
    exists (tn : Trace) (j : nat),
      snd (downloadLoop fuel url w contentLen batchSize numChunks chunk
             (k * batchSize) t) = t ++ tn /\
      ranges_of tn
      = map (fun i => (i * batchSize, (i + 1) * batchSize)) (upFrom k j) /\
      fst (downloadLoop fuel url w contentLen batchSize numChunks chunk
             (k * batchSize) t) <> Some (Returned None).
Proof.
  induction fuel as [|fuel IH]; intros k chunk t Hk Hfuel.
  - exists [], 0%nat. rewrite app_nil_r. cbn [downloadLoop].
    destruct (Z.ltb_spec (k * batchSize) contentLen); [|nia].
    repeat split. discriminate.
  - rewrite downloadLoop_step by nia. cbn zeta.
    rewrite chunkEnd_backwards by nia.
    set (line := EvStderr (Downloading chunk numChunks (k * batchSize)
                             ((k + 1) * batchSize) url)).
    destruct (downloadChunkWithRetry_trace url (k * batchSize)
                (Int64.sub ((k + 1) * batchSize) 1) (t ++ [line]))
      as (fn & Hfn & Hev).
    apply fetch_events_silent in Hev. destruct Hev as (_ & Hr0 & _ & _).
    destruct (downloadChunkWithRetry url (k * batchSize)
                (Int64.sub ((k + 1) * batchSize) 1) (t ++ [line]))
      as [[p err] t2]. cbn [fst snd] in *. subst t2.
    assert (Hone : forall rest, ranges_of rest = [] ->
                     ranges_of (line :: fn ++ rest)
                     = map (fun i => (i * batchSize, (i + 1) * batchSize))
                         (upFrom k 1)).
    { intros rest Hrest. change (line :: fn ++ rest) with ([line] ++ fn ++ rest).
      now rewrite !ranges_of_app, Hr0, Hrest. }
    destruct err as [err|].
    { exists (line :: fn), 1%nat. rewrite <- app_assoc.
      split; [reflexivity|]. split; [|discriminate].
      rewrite <- (app_nil_r fn). now apply Hone. }
    destruct (snd (Write w _ p)) as [err|].
    { exists (line :: fn ++ [EvWrite p]), 1%nat. rewrite <- !app_assoc.
      split; [reflexivity|]. split; [|discriminate]. now apply Hone. }
    destruct (IH (k + 1) (Int64.add chunk 1) (((t ++ [line]) ++ fn) ++ [EvWrite p])
                ltac:(lia) ltac:(lia))
      as (tn & j & Htn & Hranges & Hfin).
    exists (line :: fn ++ EvWrite p :: tn), (S j).
    split; [rewrite Htn, <- !app_assoc; reflexivity|].
    split; [|exact Hfin].
    change (line :: fn ++ EvWrite p :: tn) with ([line] ++ fn ++ [EvWrite p] ++ tn).
    rewrite !ranges_of_app, Hr0, Hranges. reflexivity.
Qed.

End NegativeBatch.

(** X10.  A negative batch size ([-b] below zero) is not refused.  For a
    resource that is not empty the loop then walks backwards: the chunks
    announced are [[0, b)], [[b, 2b)], ... with [b < 0], and as long as
    these offsets fit in an [int64] the download does not return without
    error: it ends with the error of a fetch or of a write, or it goes on. *)
Theorem negative_batch_walks_backwards {E : Env} {C : Config}
    (url : string) (w : Writer) (fuel : nat) (t : Trace) (contentLen : Z) :
  fst (checkHeaders url t) = (contentLen, None) ->
  0 < contentLen ->
  Int64.shl BatchSizeInMB 20 < 0 ->
  Z.of_nat fuel * - Int64.shl BatchSizeInMB 20 <= 2 ^ 63 ->
  let b := Int64.shl BatchSizeInMB 20 in
  exists (tn : Trace) (j : nat),
    snd (downloadAndWrite fuel url w t) = t ++ EvHead url :: tn /\
    ranges_of tn = map (fun i => (i * b, (i + 1) * b)) (upFrom 0 j) /\
    fst (downloadAndWrite fuel url w t) <> Some (Returned None).
Proof.
  intros Hprobe Hlen Hb Hfuel b.
  rewrite (downloadAndWrite_probed url w fuel t contentLen Hprobe). cbn zeta.
  destruct (Z.eqb_spec (Int64.shl BatchSizeInMB 20) 0) as [Hz|_]; [lia|].
  fold b in Hb, Hfuel |- *.
  destruct (downloadLoop_backwards url w contentLen b (numChunksOf contentLen b)
              Hlen Hb fuel 0 1 (t ++ [EvHead url]) ltac:(lia) ltac:(lia))
    as (tn & j & Htn & Hranges & Hfin).
  change (0 * b) with 0 in *.
  exists tn, j. rewrite Htn, <- app_assoc. now repeat split.
Qed.

(** [gocat -m 3 -b -1] and a server that answers every call alike: the
    chunks announced in three turns of the loop are [[0, -1048576)], [[-1048576, -2097152)] and
    [[-2097152, -3145728)]. *)
Lemma negative_batch_walks_backwards_witness :
  exists tn : Trace,
    snd (@downloadAndWrite (Server.constant Sample.not_found) (mkConfig 3 (-1))
           3 Sample.f1 okWriter []) = EvHead Sample.f1 :: tn /\
    ranges_of tn
    = [(0, -1048576); (-1048576, -2097152); (-2097152, -3145728)] /\
    fst (@downloadAndWrite (Server.constant Sample.not_found) (mkConfig 3 (-1))
           3 Sample.f1 okWriter []) = None.
Proof.
  destruct (@negative_batch_walks_backwards (Server.constant Sample.not_found)
              (mkConfig 3 (-1)) Sample.f1 okWriter 3 [] 9)
    as (tn & j & Htn & Hranges & _);
    [reflexivity | lia | reflexivity | vm_compute; discriminate |].
  exists tn. split; [exact Htn|]. split; [|vm_compute; reflexivity].
  assert (Hcalc : ranges_of (tail (snd (@downloadAndWrite (Server.constant Sample.not_found)
                     (mkConfig 3 (-1)) 3 Sample.f1 okWriter [])))
                  = [(0, -1048576); (-1048576, -2097152); (-2097152, -3145728)])
    by (vm_compute; reflexivity).
  rewrite Htn in Hcalc. exact Hcalc.
Defined.

(* ================================================================== *)
(** ** The manifest *)

Lemma http_lines_cons (line : string) (err : option error) (steps : Scanned) :
  http_lines ((line, err) :: steps)
  = if String.prefix "http" line then line :: http_lines steps
    else http_lines steps.
Proof. reflexivity. Qed.

(** The loop returns no error exactly when no error shows at a resource
    line, and then it returns the resource lines after those it had. *)
Lemma scanLoop_ok (steps : Scanned) :
  forall (lst : list string) (r : option (list string)),
    scanLoop steps lst = (r, None) <->
    clean_scan steps /\ r = Some (lst ++ http_lines steps).
Proof.
  induction steps as [|[line err] steps IH]; intros lst r.
  - cbn [scanLoop]. unfold http_lines. cbn. rewrite app_nil_r. split.
    + intros [= <-]. split; [constructor|reflexivity].
    + now intros (_ & ->).
  - cbn [scanLoop]. rewrite http_lines_cons. unfold clean_scan.
    rewrite Forall_cons. cbn [fst snd].
    destruct (String.prefix "http" line); cbn [negb].
    + destruct err as [e|].
      * split; [discriminate|]. intros ((He & _) & _). now specialize (He eq_refl).
      * rewrite IH, <- app_assoc. cbn [app]. unfold clean_scan. tauto.
    + rewrite IH. unfold clean_scan. intuition discriminate.
Qed.

(** The loop returns an error at the first resource line where one
    shows, and a nil list with it. *)
Lemma scanLoop_error (steps : Scanned) :
  forall (lst : list string) (r : option (list string)) (e : error),
    scanLoop steps lst = (r, Some e) <->
    r = None /\
    exists (pre : Scanned) (line : string) (post : Scanned),
      steps = pre ++ (line, Some e) :: post /\
      String.prefix "http" line = true /\ clean_scan pre.
Proof.
  induction steps as [|[line err] steps IH]; intros lst r e.
  - cbn [scanLoop]. split; [discriminate|].
    intros (_ & pre & l & post & H & _). now destruct pre.
  - cbn [scanLoop].
    assert (Hskip : (err = None \/ String.prefix "http" line = false) ->
              (r = None /\
               exists pre l post, steps = pre ++ (l, Some e) :: post /\
                 String.prefix "http" l = true /\ clean_scan pre) <->
              (r = None /\
               exists pre l post,
                 (line, err) :: steps = pre ++ (l, Some e) :: post /\
                 String.prefix "http" l = true /\ clean_scan pre)).
    { intros Hhere. split; intros (Hr & pre & l & post & Hs & Hl & Hpre);
        (split; [exact Hr|]).
      - exists ((line, err) :: pre), l, post. rewrite Hs.
        split; [reflexivity|]. split; [exact Hl|].
        constructor; [|exact Hpre]. cbn [fst snd]. intros Hp.
        destruct Hhere as [->|Hf]; [reflexivity|congruence].
      - destruct pre as [|s pre].
        + cbn [app] in Hs. injection Hs as -> -> ->.
          destruct Hhere; congruence.
        + cbn [app] in Hs. injection Hs as <- ->.
          exists pre, l, post. split; [reflexivity|]. split; [exact Hl|].
          now apply Forall_inv_tail in Hpre. }
    destruct (String.prefix "http" line) eqn:Hp; cbn [negb].
    + destruct err as [e'|].
      * split.
        -- intros [= <- <-]. split; [reflexivity|].
           exists [], line, steps. split; [reflexivity|].
           split; [exact Hp|constructor].
        -- intros (-> & pre & l & post & Hs & Hl & Hpre).
           destruct pre as [|s pre].
           ++ cbn [app] in Hs. now injection Hs as -> -> ->.
           ++ cbn [app] in Hs. injection Hs as <- ->.
              apply Forall_inv in Hpre. cbn [fst snd] in Hpre.
              now specialize (Hpre Hp).
      * rewrite IH. apply Hskip. now left.
    + rewrite IH. apply Hskip. now right.
Qed.

Lemma downloadList_ok {Mf : Manifest} (url : string) (r : option (list string)) :
  downloadList url = (r, None) <->
  exists steps : Scanned,
    env_Get url = inl steps /\ clean_scan steps /\ r = Some (http_lines steps).
Proof.
  unfold downloadList. destruct (env_Get url) as [steps|err].
  - rewrite scanLoop_ok. cbn [app]. split.
    + intros (Hc & ->). now exists steps.
    + intros (steps' & [= <-] & Hc & ->). now split.
  - split; [discriminate|]. now intros (steps & [=] & _).
Qed.

(** X11.  [downloadList] returns a list and no error exactly when [http.Get]
    succeeds and no read error shows at a line that begins with [http]; the
    list is then those lines, in order.  A read error that shows only at
    other lines, or only when the scan stops, is not reported. *)
Theorem downloadList_succeeds_iff {Mf : Manifest}
    (url : string) (r : option (list string)) :
  downloadList url = (r, None) <->
  exists steps : Scanned,
    env_Get url = inl steps /\ clean_scan steps /\ r = Some (http_lines steps).
Proof. apply downloadList_ok. Qed.

(** A manifest that breaks inside its second line is taken as the list of
    its first line. *)
Lemma downloadList_succeeds_iff_witness :
  @downloadList ManifestSample.manifest "http://a/cut"
  = (Some ["http://a/f1"%string], None).
Proof.
  apply (proj2 (@downloadList_succeeds_iff ManifestSample.manifest
                  "http://a/cut" (Some ["http://a/f1"%string]))).
  exists ManifestSample.scanned_cut. split; [reflexivity|]. split; [|reflexivity].
  repeat constructor; cbn; discriminate.
Defined.

(** X12.  [downloadList] returns an error exactly when [http.Get] fails with
    it, or when it is the read error that shows at the first line that
    begins with [http] and shows one.  The list returned with it is nil:
    the lines gathered before are dropped. *)
Theorem downloadList_fails_iff {Mf : Manifest}
    (url : string) (r : option (list string)) (e : error) :
  downloadList url = (r, Some e) <->
  r = None /\
  (env_Get url = inr e \/
   exists (pre : Scanned) (line : string) (post : Scanned),
     env_Get url = inl (pre ++ (line, Some e) :: post) /\
     String.prefix "http" line = true /\ clean_scan pre).
Proof.
  unfold downloadList. destruct (env_Get url) as [steps|err].
  - rewrite scanLoop_error. split.
    + intros (-> & pre & line & post & -> & Hl & Hpre).
      split; [reflexivity|]. right. now exists pre, line, post.
    + intros (-> & [[=]|(pre & line & post & [= ->] & Hl & Hpre)]).
      split; [reflexivity|]. now exists pre, line, post.
  - split.
    + intros [= <- <-]. split; [reflexivity|]. now left.
    + intros (-> & [[= ->]|(pre & line & post & [=] & _)]). reflexivity.
Qed.

(** A read error that shows from the third line on is reported at the
    fourth line, the next that names a resource. *)
Lemma downloadList_fails_iff_witness :
  @downloadList ManifestSample.manifest "http://a/broken"
  = (None, Some (ErrNet "unexpected EOF")).
Proof.
  apply (proj2 (@downloadList_fails_iff ManifestSample.manifest
                  "http://a/broken" None (ErrNet "unexpected EOF"))).
  split; [reflexivity|]. right.
  exists [("# the files"%string, None); ("http://a/f1"%string, None);
          (""%string, Some (ErrNet "unexpected EOF"))],
         "http://a/f2"%string, [].
  split; [reflexivity|]. split; [reflexivity|].
  repeat constructor; cbn; discriminate.
Defined.

(* ================================================================== *)
(** ** The whole run *)

Section Contacts.

Context {E : Env} {C : Config}.

Lemma contacts_of_app (t1 t2 : Trace) :
  contacts_of (t1 ++ t2) = contacts_of t1 ++ contacts_of t2.
Proof. apply omap_app. Qed.

Lemma loop_event_contacts (url : string) (tn : Trace) :
  Forall (loop_event url) tn -> Forall (eq url) (contacts_of tn).
Proof.
  induction 1 as [|e tn He _ IH]; [constructor|].
  destruct e as [| | r | | [] | |]; cbn in He |- *; try contradiction;
    try exact IH.
  constructor; [symmetry; apply He|exact IH].
Qed.

Lemma downloadAndWrite_contacts (url : string) (w : Writer) (fuel : nat) (t : Trace) :
  exists seg,
    snd (downloadAndWrite fuel url w t) = t ++ seg /\
    Forall (eq url) (contacts_of seg).
Proof.
  destruct (downloadAndWrite_shape url w fuel t) as (rest & Hsnd & Hev).
  exists (EvHead url :: rest). split; [exact Hsnd|].
  cbn. constructor; [reflexivity|]. now apply loop_event_contacts.
Qed.

Lemma downloadFiles_contacts (fuel : nat) (files : list string) :
  forall t : Trace,
  exists tn,
    snd (downloadFiles fuel files t) = t ++ tn /\
    Forall (fun u => In u files) (contacts_of tn).
Proof.
  induction files as [|file files IH]; intros t.
  - exists [EvStderr Completed]. split; [reflexivity|constructor].
  - cbn [downloadFiles]. unfold bind at 1.
    destruct (downloadAndWrite_contacts file os_Stdout fuel t) as (seg & Hseg & Hc).
    assert (Hin : Forall (fun u => In u (file :: files)) (contacts_of seg)).
    { eapply Forall_impl; [exact Hc|]. intros u <-. now left. }
    destruct (downloadAndWrite fuel file os_Stdout t) as [[[[err|]|msg]|] t1];
      cbn [snd] in Hseg; subst t1.
    + exists (seg ++ [EvFatal err]).
      split; [unfold bind, emit, ret; cbn [snd]; now rewrite <- app_assoc|].
      rewrite contacts_of_app. cbn. now rewrite app_nil_r.
    + destruct (IH (t ++ seg)) as (tn & Htn & Hcn).
      exists (seg ++ tn). split; [now rewrite Htn, <- app_assoc|].
      rewrite contacts_of_app. apply Forall_app. split; [exact Hin|].
      eapply Forall_impl; [exact Hcn|]. intros u Hu. now right.
    + exists seg. now split.
    + exists seg. now split.
Qed.

End Contacts.

Lemma nth_length_last (l : list string) :
  forall a : string, nth (length l) (a :: l) ""%string = List.last (a :: l) ""%string.
Proof.
  induction l as [|b l IH]; intros a; [reflexivity|].
  change (nth (length (b :: l)) (a :: b :: l) ""%string)
    with (nth (length l) (b :: l) ""%string).
  now rewrite IH.
Qed.

(** [flag.Arg(flag.NArg() - 1)] is the last argument left, and the empty
    string when none is left. *)
Lemma flag_Arg_last (args : list string) :
  flag_Arg args (Z.of_nat (length args) - 1) = List.last args ""%string.
Proof.
  destruct args as [|a args]; [reflexivity|]. unfold flag_Arg.
  destruct (Z.ltb_spec (Z.of_nat (length (a :: args)) - 1) 0) as [Hlt|_];
    [cbn [length] in Hlt; lia|].
  destruct (Z.leb_spec (Z.of_nat (length (a :: args)))
              (Z.of_nat (length (a :: args)) - 1)) as [Hle|_]; [lia|].
  cbn [orb length].
  replace (Z.to_nat (Z.of_nat (S (length args)) - 1)) with (length args) by lia.
  apply nth_length_last.
Qed.

Lemma http_lines_prefix (steps : Scanned) :
  Forall (fun u => String.prefix "http" u = true) (http_lines steps).
Proof.
  unfold http_lines. apply List.Forall_forall. intros u Hu.
  apply List.filter_In in Hu. apply Hu.
Qed.

(** What a run of [main] that reaches the loop over the files has done
    before. *)
Lemma main_downloads {E : Env} {Mf : Manifest} {CL : CommandLine}
    (fuel : nat) (os_Args : list string) (url : string) (cfg : Config)
    (files : list string) (r : option Exit) (t : Trace) :
  main fuel os_Args = Downloads url cfg files r t ->
  exists (args : list string) (steps : Scanned),
    (2 <= length os_Args)%nat /\
    flag_Parse (mkConfig 100 16) (tail os_Args) = Parsed cfg args /\
    url = List.last args ""%string /\
    env_Get url = inl steps /\ clean_scan steps /\ files = http_lines steps /\
    @downloadFiles E cfg fuel files [] = (r, t).
Proof.
  unfold main. destruct (Nat.ltb_spec (length os_Args) 2) as [|Hlen]; [discriminate|].
  destruct (flag_Parse _ _) as [cfg' args|code]; [|discriminate].
  cbv zeta. rewrite flag_Arg_last.
  destruct (downloadList _) as [fl [e|]] eqn:Hlist; [discriminate|].
  apply downloadList_ok in Hlist. destruct Hlist as (steps & Hget & Hclean & ->).
  cbn [default from_option]. unfold id.
  destruct (downloadFiles fuel (http_lines steps) []) as [r' t'] eqn:Hrun.
  intros [= <- <- <- <- <-]. exists args, steps. repeat split; auto.
Qed.



(** X14.  Whatever the end of a run of [main] that reaches the loop over the
    files, every address it has contacted, with a probe or with a chunk
    request, is a line of the manifest that begins with [http]. *)
Theorem main_contacts_listed {E : Env} {Mf : Manifest} {CL : CommandLine}
    (fuel : nat) (os_Args : list string) (url : string) (cfg : Config)
    (files : list string) (r : option Exit) (t : Trace) :
  main fuel os_Args = Downloads url cfg files r t ->
  exists steps : Scanned,
    env_Get url = inl steps /\
    Forall (fun u => In u (map fst steps) /\ String.prefix "http" u = true)
      (contacts_of t).
Proof.
  intros Hmain.
  destruct (main_downloads fuel os_Args url cfg files r t Hmain)
    as (args & steps & _ & _ & _ & Hget & _ & -> & Hrun).
  exists steps. split; [exact Hget|].
  destruct (@downloadFiles_contacts E cfg fuel (http_lines steps) [])
    as (tn & Htn & Hc).
  rewrite Hrun in Htn. cbn [snd app] in Htn. subst tn.
  eapply Forall_impl; [exact Hc|]. intros u Hu. cbn beta in Hu.
  unfold http_lines in Hu. apply List.filter_In in Hu. exact Hu.
Qed.

(** [gocat http://a/list] when the server has the first file only: the
    probes of the two resources and the request for the first one. *)
Lemma main_contacts_listed_witness :
  exists t : Trace,
    @main (Server.static [(Sample.f1, Sample.body1)]) ManifestSample.manifest
      ManifestSample.no_flags 5 ["gocat"; "http://a/list"]%string
    = Downloads "http://a/list" (mkConfig 100 16) [Sample.f1; Sample.f2]
        (Some (ExitFatal (ErrNet "no such host"))) t /\
    Forall (fun u => In u (map fst ManifestSample.scanned)) (contacts_of t).
Proof.
  eexists. split; [vm_compute; reflexivity|].
  destruct (@main_contacts_listed (Server.static [(Sample.f1, Sample.body1)])
              ManifestSample.manifest ManifestSample.no_flags 5
              ["gocat"; "http://a/list"]%string "http://a/list" (mkConfig 100 16)
              [Sample.f1; Sample.f2] _ _ ltac:(vm_compute; reflexivity))
    as (steps & Hget & Hc).
  injection Hget as <-.
  eapply Forall_impl; [exact Hc|]. intros u Hu. apply Hu.
Defined.

(* ================================================================== *)
(** ** The value of the Range header *)

(** X15.  Two chunk requests for different ranges carry different values of
    the Range header: the value names its range. *)
Theorem rangeStr_injective (first last first' last' : Z) :
  (first, last) <> (first', last') ->
  rangeStr first last <> rangeStr first' last'.
Proof.
  intros Hne Heq. apply Hne.
  pose proof (ServerFacts.parseRange_rangeStr first last) as H1.
  rewrite Heq, ServerFacts.parseRange_rangeStr in H1. congruence.
Qed.

(** The ranges [-1 .. 5] and [1 .. -5] do not share a header value. *)
Lemma rangeStr_injective_witness : rangeStr (-1) 5 <> rangeStr 1 (-5).
Proof. apply rangeStr_injective. discriminate. Defined.
